(** * Slack thread <-> Gemini bridge (app/main.py): model and properties

    A shallow embedding of the two pipelines of [app/main.py]:
    the context assembler ([_extract_text], [_build_contents_from_thread])
    and the response renderer ([_split_text], [_format_model_response]),
    together with the orchestration of [handle_mention].

    - A Python [str] is a sequence of Unicode code points: [pystr] is
      [list N].  Whitespace is CPython's [Py_UNICODE_ISSPACE], which both
      [str.strip] and the [\s] class of [re] use on [str] values.
    - The await-ed collaborators (Slack client, httpx client, Gemini
      client) are oracles; a raised exception is the left injection of a
      [result], and the requests sent to the attachment host are recorded
      in a trace.
    - [float(m["ts"])] is the rational denoted by the finite double. *)

From Stdlib Require Import List ZArith NArith QArith Lia Bool Arith.
From Stdlib Require Import Permutation Sorted.
From Stdlib Require String Ascii DecimalString DecimalNat.
Import ListNotations String.StringSyntax.
Delimit Scope string_scope with string.
Close Scope Q_scope.

Set Implicit Arguments.
Set Warnings "-register-all".

(** ** Python strings *)

Module PyStr.

Definition pystr := list N.

(** [str "..."] reads an ASCII literal as the code points it denotes. *)
Definition str (s : String.string) : pystr :=
  map Ascii.N_of_ascii (String.list_ascii_of_string s).
Arguments str s%_string.

Definition nl : N := 10%N.

(** [Py_UNICODE_ISSPACE]. *)
Definition is_space (c : N) : bool :=
  ((9 <=? c) && (c <=? 13) || (28 <=? c) && (c <=? 32)
   || (c =? 133) || (c =? 160) || (c =? 5760)
   || (8192 <=? c) && (c <=? 8202)
   || (c =? 8232) || (c =? 8233) || (c =? 8239) || (c =? 8287)
   || (c =? 12288))%N.

Fixpoint drop_while (p : N -> bool) (s : pystr) : pystr :=
  match s with
  | [] => []
  | c :: t => if p c then drop_while p t else s
  end.

Definition lstrip (s : pystr) : pystr := drop_while is_space s.
Definition rstrip (s : pystr) : pystr := rev (drop_while is_space (rev s)).

(** [s.strip()] *)
Definition strip (s : pystr) : pystr := rstrip (lstrip s).

(** [sep.join(xs)] *)
Fixpoint join (sep : pystr) (xs : list pystr) : pystr :=
  match xs with
  | [] => []
  | [x] => x
  | x :: rest => x ++ sep ++ join sep rest
  end.

(** [s.startswith(p)] *)
Fixpoint startswith (s p : pystr) {struct p} : bool :=
  match p with
  | [] => true
  | a :: p' =>
      match s with
      | [] => false
      | b :: s' => (a =? b)%N && startswith s' p'
      end
  end.

Definition eqb (a b : pystr) : bool :=
  if list_eq_dec N.eq_dec a b then true else false.

(** Truthiness of a [str]: non-empty. *)
Definition truthy (s : pystr) : bool :=
  match s with [] => false | _ :: _ => true end.

(** [x or ""] for an optional string ([None] and [""] are both falsy). *)
Definition or_empty (o : option pystr) : pystr :=
  match o with Some s => s | None => [] end.

(** Python slice [s[i:j]] for [0 <= i], [0 <= j]. *)
Definition slice (A : Type) (s : list A) (i j : nat) : list A :=
  firstn (j - i) (skipn i s).




Arguments str : simpl never.
Arguments startswith : simpl never.
Arguments eqb : simpl never.

End PyStr.
Import PyStr.

(** ** The substitution [re.sub(r"<@[^>]+>\s*", "", text)] *)

Module Mention.

Definition lt_sign : N := 60%N.
Definition at_sign : N := 64%N.
Definition gt_sign : N := 62%N.

Definition not_gt (c : N) : bool := negb (c =? gt_sign)%N.

(** [match_mention s] is the text left after a match of the pattern
    anchored at the head of [s], if there is one.  [[^>]+] is greedy and
    cannot step over [>], so the match is the only candidate: it ends at
    the first [>], which must come after at least one other character;
    [\s*] then takes all the whitespace that follows. *)
Definition match_mention (s : pystr) : option pystr :=
  match s with
  | a :: b :: c :: t =>
      if ((a =? lt_sign) && (b =? at_sign) && not_gt c)%N then
        match drop_while not_gt t with
        | d :: rest => Some (drop_while is_space rest)
        | [] => None
        end
      else None
  | _ => None
  end.

(** Left-to-right scan of [re.sub] with the empty replacement: a match
    is dropped and the scan resumes after it, any other character is
    copied. *)
Fixpoint sub_from (fuel : nat) (s : pystr) : pystr :=
  match fuel with
  | O => []
  | S fuel' =>
      match s with
      | [] => []
      | c :: t =>
          match match_mention s with
          | Some rest => sub_from fuel' rest
          | None => c :: sub_from fuel' t
          end
      end
  end.

Definition sub_mentions (s : pystr) : pystr := sub_from (length s) s.

(** Lines 59-60: [text = msg.get("text") or ""] and
    [text = re.sub(...).strip()]. *)
Definition clean_text (text : option pystr) : pystr :=
  strip (sub_mentions (or_empty text)).

End Mention.
Import Mention.


(** ** Rich-text blocks and [_extract_text] *)

Module Json.

(** The values [json.loads] produces.  A [dict] keeps its keys in
    insertion order, which is the order [values()] iterates in. *)
Inductive json : Type :=
| JNull
| JBool (b : bool)
| JNum (z : Z)
| JStr (s : pystr)
| JList (items : list json)
| JDict (fields : list (pystr * json)).

(** [d.get(k)] *)
Fixpoint dict_get (A : Type) (fields : list (pystr * A)) (k : pystr)
  : option A :=
  match fields with
  | [] => None
  | (k', v) :: rest => if PyStr.eqb k' k then Some v else dict_get rest k
  end.

Definition text_key : pystr := str "text".

(** Lines 33-44. *)
Fixpoint _extract_text (obj : json) : list pystr :=
  match obj with
  | JDict fields =>
      let texts :=
        match dict_get fields text_key with
        | Some (JStr t) => [t]
        | _ => []
        end in
      texts ++
      (fix values (kvs : list (pystr * json)) : list pystr :=
         match kvs with
         | [] => []
         | (_, v) :: rest => _extract_text v ++ values rest
         end) fields
  | JList items =>
      (fix each (l : list json) : list pystr :=
         match l with
         | [] => []
         | item :: rest => _extract_text item ++ each rest
         end) items
  | _ => []
  end.

End Json.
Import Json.

(** ** Data model *)

Definition bytes := list Byte.byte.

(** An entry of [msg["files"]]: the two keys the assembler reads. *)
Record File := {
  mimetype : option pystr;
  url_private_download : option pystr
}.

(** A message of [history["messages"]]: the keys the assembler reads.
    [ts] holds [float(m["ts"])]. *)
Record Message := {
  ts : Q;
  bot_id : option pystr;
  subtype : option pystr;
  text : option pystr;
  blocks : option json;
  files : option (list File)
}.

(** [types.Part.from_text] and [types.Part.from_bytes]. *)
Inductive Part :=
| from_text (text : pystr)
| from_bytes (data : bytes) (mime_type : pystr).

(** [types.Content(role=..., parts=...)]. *)
Record Content := { role : pystr; parts : list Part }.

(** What [http_client.get] does for a URL: it returns a response, or
    raises after the 30 s timeout, or raises a transport error. *)
Record Response := {
  status_code : Z;
  resp_content : bytes;
  resp_text : pystr
}.

Inductive get_outcome :=
| Responded (r : Response)
| TimedOut
| TransportFailed.

Inductive exn :=
| SlackApiError
| TimeoutException
| TransportError
| HTTPStatusError (status : Z)
| ValueError.

Inductive result (A : Type) :=
| Ok (a : A)
| Raise (e : exn).
Arguments Ok {A} a.
Arguments Raise {A} e.

(** ** Effects: exceptions and the trace of outgoing calls *)

Inductive event :=
| HttpGet (url : pystr)
| ConversationsReplies (channel thread_ts : pystr)
| GenerateContent (contents : list Content)
| Ack
| LogException (msg : pystr)
| Say (block_text text thread_ts : pystr)
| FilesUpload (channel thread_ts filename title : pystr) (file : bytes).

Definition M (A : Type) : Type := list event -> result A * list event.

Definition ret (A : Type) (a : A) : M A := fun tr => (Ok a, tr).

Definition raise (A : Type) (e : exn) : M A := fun tr => (Raise e, tr).
Arguments raise {A} e.

Definition bind (A B : Type) (m : M A) (k : A -> M B) : M B :=
  fun tr =>
    match m tr with
    | (Ok a, tr') => k a tr'
    | (Raise e, tr') => (Raise e, tr')
    end.

Definition emit (e : event) : M unit := fun tr => (Ok tt, tr ++ [e]).

Notation "x <- m ;; k" := (bind m (fun x => k))
  (at level 61, m at next level, right associativity).
Notation "m ;;; k" := (bind m (fun _ => k))
  (at level 61, right associativity).

(** ** Context assembler: [_build_contents_from_thread] *)

Module Assembler.

(** Truthiness of [d.get(k)] for a string-valued key: present and
    non-empty. *)
Definition opt_truthy (o : option pystr) : bool := truthy (or_empty o).

(** Line 55. *)
Definition is_bot (msg : Message) : bool :=
  opt_truthy (bot_id msg)
  || match subtype msg with
     | Some s => PyStr.eqb s (str "bot_message")
     | None => false
     end.

(** Line 56. *)
Definition role_of (msg : Message) : pystr :=
  if is_bot msg then str "model" else str "user".

(** Lines 59-62. *)
Definition derive_text (msg : Message) : pystr :=
  let text := clean_text (text msg) in
  if truthy text then text
  else
    strip (join [nl]
             (_extract_text
                (match blocks msg with Some b => b | None => JList [] end))).

(** Lines 73-76. *)
Definition supported (mimetype : pystr) : bool :=
  startswith mimetype (str "image/")
  || startswith mimetype (str "video/")
  || startswith mimetype (str "audio/")
  || startswith mimetype (str "text/")
  || PyStr.eqb mimetype (str "application/pdf").

(** [Response.is_success] of httpx: a 2xx status. *)
Definition is_success (r : Response) : bool :=
  ((200 <=? status_code r) && (status_code r <=? 299))%Z.

(** [resp.raise_for_status()] *)
Definition raise_for_status (r : Response) : M unit :=
  if is_success r then ret tt else raise (HTTPStatusError (status_code r)).

Section WithHost.

(** The attachment host, as seen through [http_client.get]. *)
Variable host : pystr -> get_outcome.

(** Lines 80-83. *)
Definition http_get (url : pystr) : M Response :=
  emit (HttpGet url) ;;;
  match host url with
  | Responded r => ret r
  | TimedOut => raise TimeoutException
  | TransportFailed => raise TransportError
  end.

(** Lines 67-89: the loop over [msg.get("files", [])], threading
    [parts]. *)
Fixpoint files_loop (fs : list File) (parts : list Part) : M (list Part) :=
  match fs with
  | [] => ret parts
  | f :: rest =>
      let mimetype := or_empty (mimetype f) in
      let url := url_private_download f in
      if negb (opt_truthy url) then files_loop rest parts
      else if negb (supported mimetype) then files_loop rest parts
      else
        resp <- http_get (or_empty url) ;;
        raise_for_status resp ;;;
        if startswith mimetype (str "text/")
        then files_loop rest (parts ++ [from_text (resp_text resp)])
        else files_loop rest
               (parts ++ [from_bytes (resp_content resp) mimetype])
  end.

(** Lines 57-89: the parts of one message. *)
Definition message_parts (msg : Message) : M (list Part) :=
  let text := derive_text msg in
  let parts := if truthy text then [from_text text] else [] in
  files_loop (match files msg with Some fs => fs | None => [] end) parts.

(** Lines 54-92: the loop over the sorted messages, threading
    [contents]. *)
Fixpoint messages_loop (msgs : list Message) (contents : list Content)
  : M (list Content) :=
  match msgs with
  | [] => ret contents
  | msg :: rest =>
      parts <- message_parts msg ;;
      match parts with
      | [] => messages_loop rest contents
      | _ :: _ =>
          messages_loop rest
            (contents ++ [{| role := role_of msg; parts := parts |}])
      end
  end.

(** [sorted(msgs, key=lambda m: float(m["ts"]))]: a stable sort, here by
    insertion; an element goes in front of the first element whose key
    is not smaller. *)
Fixpoint insert_by_ts (m : Message) (l : list Message) : list Message :=
  match l with
  | [] => [m]
  | x :: rest =>
      if Qle_bool (ts m) (ts x) then m :: l else x :: insert_by_ts m rest
  end.

Fixpoint sorted_by_ts (msgs : list Message) : list Message :=
  match msgs with
  | [] => []
  | m :: rest => insert_by_ts m (sorted_by_ts rest)
  end.

Definition placeholder : list Content :=
  [{| role := str "user"; parts := [from_text (str "(no content)")] |}].

(** Lines 50-96, from the fetched [history["messages"]] on. *)
Definition assemble (msgs : list Message) : M (list Content) :=
  contents <- messages_loop (sorted_by_ts msgs) [] ;;
  match contents with
  | [] => ret placeholder
  | _ :: _ => ret contents
  end.

(** The Slack client's [conversations_replies(channel, ts, limit=50)]:
    the messages of the thread, or a raised [SlackApiError]. *)
Variable conversations_replies : pystr -> pystr -> option (list Message).

(** Lines 47-96. *)
Definition _build_contents_from_thread (channel thread_ts : pystr)
  : M (list Content) :=
  emit (ConversationsReplies channel thread_ts) ;;;
  match conversations_replies channel thread_ts with
  | None => raise SlackApiError
  | Some msgs => assemble msgs
  end.

End WithHost.

End Assembler.
Import Assembler.

(** ** Response renderer: [_split_text] and [_format_model_response] *)

Module Renderer.

(** [range(i, stop, step)] for a positive [step]; [stop] iterations are
    enough from [i = 0]. *)
Fixpoint range_from (fuel i stop step : nat) : list nat :=
  match fuel with
  | O => []
  | S fuel' =>
      if i <? stop then i :: range_from fuel' (i + step) stop step else []
  end.

Definition range0 (stop step : nat) : list nat :=
  range_from stop 0 stop step.

(** Line 103 for a positive limit: [text[i : i + limit]] for each [i]
    of the range. *)
Definition chunk (text : pystr) (limit i : nat) : pystr :=
  slice text i (i + limit).

Definition chunks_of (text : pystr) (limit : nat) : list pystr :=
  map (chunk text limit) (range0 (length text) limit).

(** Lines 99-103.  [limit] is any [int]: a zero step makes [range] raise
    [ValueError] ([None] here), a negative one makes it empty. *)
Definition _split_text (text : pystr) (limit : Z) : option (list pystr) :=
  if negb (truthy text) then Some [[]]
  else if (limit =? 0)%Z then None
  else if (limit <? 0)%Z then Some []
  else Some (chunks_of text (Z.to_nat limit)).

Definition default_limit : Z := 3000%Z.

(** The image [part.as_image()] returns: its [format] attribute and its
    [save(buffer, format=...)] method, read back with
    [buffer.getvalue()]. *)
Record Image := {
  format : option pystr;
  save : pystr -> bytes
}.

(** A part of [response.parts]. *)
Record ResponsePart := {
  thought : option bool;
  part_text : option pystr;
  as_image : option Image
}.

Record GenerateContentResponse := {
  response_parts : list ResponsePart;
  response_text : option pystr
}.

(** [getattr(part, "thought", None)] as a condition. *)
Definition is_thought (part : ResponsePart) : bool :=
  match thought part with Some true => true | _ => false end.

(** Line 121: [image.format or "PNG"]. *)
Definition save_format (image : Image) : pystr :=
  if opt_truthy (format image) then or_empty (format image) else str "PNG".

(** Lines 112-122: the loop over [response.parts], threading
    [text_parts] and [images]. *)
Fixpoint parts_loop (ps : list ResponsePart)
    (text_parts : list pystr) (images : list bytes)
  : list pystr * list bytes :=
  match ps with
  | [] => (text_parts, images)
  | part :: rest =>
      if is_thought part then parts_loop rest text_parts images
      else if opt_truthy (part_text part) then
        parts_loop rest (text_parts ++ [or_empty (part_text part)]) images
      else
        match as_image part with
        | Some image =>
            parts_loop rest text_parts
              (images ++ [save image (save_format image)])
        | None => parts_loop rest text_parts images
        end
  end.

(** Lines 106-125. *)
Definition _format_model_response (response : GenerateContentResponse)
  : pystr * list bytes :=
  let (text_parts, images) := parts_loop (response_parts response) [] [] in
  let combined_text :=
    match text_parts with
    | [] => or_empty (response_text response)
    | _ :: _ => join [nl; nl] text_parts
    end in
  (combined_text, images).

End Renderer.
Import Renderer.

(** ** Orchestration: [handle_mention] *)

Module Handler.

(** [body["event"]]: the keys the handler reads. *)
Record SlackEvent := {
  channel : pystr;
  thread_ts : option pystr;
  event_ts : pystr
}.

(** [str(n)] for a non-negative [int]. *)
Definition str_of_nat (n : nat) : pystr :=
  str (DecimalString.NilEmpty.string_of_uint (Nat.to_uint n)).

(** Lines 176-177. *)
Definition substitute_empty (chunks : list pystr) (reply_images : list bytes)
  : list pystr :=
  if forallb (fun chunk => negb (truthy chunk)) chunks then
    match reply_images with
    | _ :: _ => [str "Here are your results from Gemini."]
    | [] => [str "(no response content)"]
    end
  else chunks.

(** Lines 179-189, one call of [say]. *)
Definition say (chunk thread_ts : pystr) : M unit :=
  emit (Say chunk chunk thread_ts).

Fixpoint say_each (chunks : list pystr) (thread_ts : pystr) : M unit :=
  match chunks with
  | [] => ret tt
  | chunk :: rest => say chunk thread_ts ;;; say_each rest thread_ts
  end.

(** Lines 191-198: [enumerate(reply_images, start=idx)]. *)
Fixpoint upload_each (images : list bytes) (idx : nat)
    (channel thread_ts : pystr) : M unit :=
  match images with
  | [] => ret tt
  | image_bytes :: rest =>
      emit (FilesUpload channel thread_ts
              (str "gemini-response-" ++ str_of_nat idx ++ str ".png")
              (str "Gemini response " ++ str_of_nat idx)
              image_bytes) ;;;
      upload_each rest (S idx) channel thread_ts
  end.

(** Lines 175-198: chunking, the substitution for an all-empty reply,
    and delivery to the thread. *)
Definition deliver (reply_text : pystr) (reply_images : list bytes)
    (channel thread_ts : pystr) : M unit :=
  match _split_text reply_text default_limit with
  | None => raise ValueError
  | Some chunks =>
      match substitute_empty chunks reply_images with
      | [] => raise ValueError
      | first_chunk :: rest_chunks =>
          say first_chunk thread_ts ;;;
          say_each rest_chunks thread_ts ;;;
          upload_each reply_images 1 channel thread_ts
      end
  end.

Section WithCollaborators.

Variable host : pystr -> get_outcome.
Variable conversations_replies : pystr -> pystr -> option (list Message).

(** [call_gemini], run by [asyncio.to_thread]: the response, or an
    exception [e], given by its [str(e)]. *)
Variable call_gemini : list Content -> pystr + GenerateContentResponse.

(** Lines 168-174: the [try] block and its [except Exception] handler. *)
Definition invoke_and_render (contents : list Content)
  : M (pystr * list bytes) :=
  emit (GenerateContent contents) ;;;
  match call_gemini contents with
  | inr gemini_response => ret (_format_model_response gemini_response)
  | inl e =>
      emit (LogException (str "Gemini call failed")) ;;;
      ret (str "Error from Gemini: " ++ e, [])
  end.

(** Lines 130-198. *)
Definition handle_mention (event : SlackEvent) : M unit :=
  emit Ack ;;;
  let channel := channel event in
  let thread_ts :=
    if opt_truthy (thread_ts event) then or_empty (thread_ts event)
    else event_ts event in
  contents <-
    _build_contents_from_thread host conversations_replies
      channel thread_ts ;;
  reply <- invoke_and_render contents ;;
  deliver (fst reply) (snd reply) channel thread_ts.

End WithCollaborators.

End Handler.
Import Handler.

(** * Properties *)

(** ** Chunking *)

Module SplitFacts.

(** ceil(a / b) on naturals. *)
Definition ceil_div (a b : nat) : nat := (a + b - 1) / b.

Lemma ceil_div_zero b : ceil_div 0 b = 0.
Proof.
  unfold ceil_div. destruct b as [|b]; [reflexivity|].
  apply Nat.div_small. lia.
Qed.

Lemma ceil_div_step a b : 0 < b -> 0 < a -> ceil_div a b = S (ceil_div (a - b) b).
Proof.
  intros Hb Ha. unfold ceil_div.
  destruct (le_lt_dec b a) as [Hle|Hlt].
  - replace (a + b - 1) with ((a - b + b - 1) + 1 * b) by lia.
    rewrite Nat.div_add by lia. lia.
  - replace (a - b) with 0 by lia. simpl.
    rewrite (Nat.div_small (b - 1) b) by lia.
    replace (a + b - 1) with ((a - 1) + 1 * b) by lia.
    rewrite Nat.div_add by lia. rewrite Nat.div_small by lia. reflexivity.
Qed.

(** [ceil_div a b] is the least [k] with [a <= k * b]. *)
Lemma ceil_div_spec a b :
  0 < b -> a <= ceil_div a b * b /\ (0 < a -> (ceil_div a b - 1) * b < a).
Proof.
  intros Hb. unfold ceil_div.
  pose proof (Nat.div_mod_eq (a + b - 1) b) as E.
  pose proof (Nat.mod_upper_bound (a + b - 1) b ltac:(lia)) as U.
  split; [nia|]. intros Ha.
  assert (1 <= (a + b - 1) / b).
  { apply Nat.div_le_lower_bound; lia. }
  nia.
Qed.

Section Chunks.

Variable text : pystr.
Variable n : nat.
Hypothesis n_pos : 0 < n.

Local Abbreviation chunk := (chunk text n).

Lemma chunk_firstn i : chunk i = firstn n (skipn i text).
Proof. unfold chunk, slice. f_equal. lia. Qed.

Lemma range_from_length fuel i :
  length text - i <= fuel ->
  length (range_from fuel i (length text) n) = ceil_div (length text - i) n.
Proof.
  revert i. induction fuel as [|fuel IH]; intros i Hfuel; simpl.
  - replace (length text - i) with 0 by lia. now rewrite ceil_div_zero.
  - destruct (Nat.ltb_spec i (length text)) as [Hlt|Hge]; simpl.
    + rewrite IH by lia.
      rewrite (ceil_div_step (a := length text - i) n_pos) by lia.
      do 2 f_equal. lia.
    + replace (length text - i) with 0 by lia. now rewrite ceil_div_zero.
Qed.

Lemma range_from_concat fuel i :
  length text - i <= fuel ->
  concat (map chunk (range_from fuel i (length text) n)) = skipn i text.
Proof.
  revert i. induction fuel as [|fuel IH]; intros i Hfuel; simpl.
  - symmetry. apply skipn_all2. lia.
  - destruct (Nat.ltb_spec i (length text)) as [Hlt|Hge]; simpl.
    + rewrite IH by lia. rewrite chunk_firstn.
      replace (i + n) with (n + i) by lia.
      rewrite <- skipn_skipn. apply firstn_skipn.
    + symmetry. apply skipn_all2. lia.
Qed.

(** From a position inside the text on, the chunks are full ones
    followed by one last non-empty chunk. *)
Lemma range_from_shape fuel i :
  length text - i <= fuel -> i < length text ->
  exists full last,
    map chunk (range_from fuel i (length text) n) = full ++ [last]
    /\ Forall (fun c => length c = n) full
    /\ 0 < length last <= n.
Proof.
  revert i. induction fuel as [|fuel IH]; intros i Hfuel Hi; [lia|].
  simpl. destruct (Nat.ltb_spec i (length text)) as [_|]; [|lia].
  simpl. destruct (le_lt_dec (length text) (i + n)) as [Hend|Hmore].
  - exists [], (chunk i). repeat split.
    + destruct fuel as [|fuel']; [reflexivity|]. simpl.
      destruct (Nat.ltb_spec (i + n) (length text)); [lia|reflexivity].
    + constructor.
    + rewrite chunk_firstn, length_firstn, length_skipn. lia.
    + rewrite chunk_firstn, length_firstn. lia.
  - destruct (IH (i + n)) as (full & last & E & Hfull & Hlast); [lia..|].
    exists (chunk i :: full), last. repeat split; try apply Hlast.
    + now rewrite E.
    + constructor; [|exact Hfull].
      rewrite chunk_firstn, length_firstn, length_skipn. lia.
Qed.

End Chunks.

Lemma chunks_of_nonempty (text : pystr) n :
  0 < n -> text <> [] -> Forall (fun c => c <> []) (chunks_of text n).
Proof.
  intros Hn Ht. unfold chunks_of, range0.
  destruct (@range_from_shape text n Hn (length text) 0)
    as (full & last & E & Hfull & Hlast).
  - lia.
  - destruct text; [congruence | simpl; lia].
  - rewrite E. apply Forall_app. split.
    + eapply Forall_impl; [|exact Hfull].
      intros c Hc Hnil. subst c. simpl in Hc. lia.
    + constructor; [|constructor]. intros Hnil. subst last.
      simpl in Hlast. lia.
Qed.

(** At a positive limit [_split_text] returns the single empty chunk
    for the empty text and the chunks of line 103 otherwise. *)
Lemma split_text_positive (text : pystr) (limit : Z) :
  (0 < limit)%Z ->
  _split_text text limit
  = Some (match text with
          | [] => [[]]
          | _ :: _ => chunks_of text (Z.to_nat limit)
          end).
Proof.
  intros Hlimit. unfold _split_text. destruct text as [|c text];
    [reflexivity|].
  simpl. destruct (Z.eqb_spec limit 0) as [|_]; [lia|].
  destruct (Z.ltb_spec limit 0) as [|_]; [lia | reflexivity].
Qed.

Lemma chunks_of_concat (text : pystr) n :
  0 < n -> concat (chunks_of text n) = text.
Proof.
  intros Hn. unfold chunks_of, range0.
  now rewrite range_from_concat by lia.
Qed.

End SplitFacts.
Import SplitFacts.

(** C3. Splitting a string of length L at a positive limit N gives the
    chunks in order: their concatenation is the string; for a non-empty
    string there are ceil(L/N) of them, all of exactly N characters
    except the last, which has between 1 and N; the empty string gives
    the single empty chunk. *)
Theorem split_text_chunks (text : pystr) (limit : Z) :
  (0 < limit)%Z ->
  exists chunks,
    _split_text text limit = Some chunks
    /\ concat chunks = text
    /\ Forall (fun c => length c <= Z.to_nat limit) chunks
    /\ (text = [] -> chunks = [[]])
    /\ (text <> [] ->
        length chunks = ceil_div (length text) (Z.to_nat limit)
        /\ exists full last,
             chunks = full ++ [last]
             /\ Forall (fun c => length c = Z.to_nat limit) full
             /\ 0 < length last <= Z.to_nat limit).
Proof.
  intros Hlimit. unfold _split_text.
  destruct text as [|c text].
  - exists [[]]. simpl. repeat split; try congruence.
    constructor; [simpl; lia | constructor].
  - simpl truthy. cbv iota beta. simpl negb. cbv iota.
    destruct (Z.eqb_spec limit 0) as [|_]; [lia|].
    destruct (Z.ltb_spec limit 0) as [|_]; [lia|].
    set (n := Z.to_nat limit). assert (Hn : 0 < n) by (subst n; lia).
    set (s := c :: text).
    exists (chunks_of s n). unfold chunks_of, range0.
    destruct (@range_from_shape s n Hn (length s) 0)
      as (full & last & E & Hfull & Hlast); [lia | simpl; lia |].
    split; [reflexivity|]. split; [|split; [|split]].
    + now rewrite range_from_concat by lia.
    + rewrite E. apply Forall_app. split.
      * eapply Forall_impl; [|exact Hfull]. intros; simpl in *; lia.
      * constructor; [lia | constructor].
    + discriminate.
    + intros _. split.
      * rewrite length_map, range_from_length by lia. f_equal; lia.
      * exists full, last. split; [exact E|]. split; assumption.
Qed.

Lemma split_text_chunks_witness :
  exists chunks,
    _split_text (str "abcdefg") 3 = Some chunks
    /\ concat chunks = str "abcdefg"
    /\ Forall (fun c => length c <= Z.to_nat 3) chunks
    /\ (str "abcdefg" = [] -> chunks = [[]])
    /\ (str "abcdefg" <> [] ->
        length chunks = ceil_div (length (str "abcdefg")) (Z.to_nat 3)
        /\ exists full last,
             chunks = full ++ [last]
             /\ Forall (fun c => length c = Z.to_nat 3) full
             /\ 0 < length last <= Z.to_nat 3).
Proof. apply (@split_text_chunks (str "abcdefg") 3). reflexivity. Defined.

(** ** Rendering *)

Module RenderFacts.

(** [omap f l]: the defined results of [f] along [l], in order. *)
Fixpoint omap (A B : Type) (f : A -> option B) (l : list A) : list B :=
  match l with
  | [] => []
  | x :: rest =>
      match f x with
      | Some y => y :: omap f rest
      | None => omap f rest
      end
  end.

(** The text a segment contributes: none for a thought, none for a
    segment without (non-empty) text. *)
Definition visible_text (part : ResponsePart) : option pystr :=
  if is_thought part then None
  else if opt_truthy (part_text part) then part_text part
  else None.

(** The image payload a segment contributes: none for a thought or a
    text segment. *)
Definition visible_image (part : ResponsePart) : option bytes :=
  if is_thought part then None
  else if opt_truthy (part_text part) then None
  else option_map (fun image => save image (save_format image))
         (as_image part).

Lemma parts_loop_acc ps : forall text_parts images,
  parts_loop ps text_parts images
  = (text_parts ++ omap visible_text ps, images ++ omap visible_image ps).
Proof.
  induction ps as [|part rest IH]; intros text_parts images; simpl.
  - now rewrite !app_nil_r.
  - unfold visible_text, visible_image.
    destruct (is_thought part); [apply IH|].
    destruct (part_text part) as [[|c t]|] eqn:Et; simpl.
    + destruct (as_image part); simpl; rewrite IH; [|reflexivity].
      now rewrite <- app_assoc.
    + rewrite IH. now rewrite <- app_assoc.
    + destruct (as_image part); simpl; rewrite IH; [|reflexivity].
      now rewrite <- app_assoc.
Qed.

Lemma omap_drop_thoughts (B : Type) (f : ResponsePart -> option B) ps :
  (forall part, is_thought part = true -> f part = None) ->
  omap f (filter (fun part => negb (is_thought part)) ps) = omap f ps.
Proof.
  intros Hf. induction ps as [|part rest IH]; simpl; [reflexivity|].
  destruct (is_thought part) eqn:Et; simpl.
  - now rewrite (Hf part Et).
  - now rewrite IH.
Qed.

Lemma format_model_response_eq response :
  _format_model_response response
  = (match omap visible_text (response_parts response) with
     | [] => or_empty (response_text response)
     | texts => join [nl; nl] texts
     end,
     omap visible_image (response_parts response)).
Proof.
  unfold _format_model_response. rewrite parts_loop_acc. simpl.
  now destruct (omap visible_text (response_parts response)).
Qed.

End RenderFacts.
Import RenderFacts.

(** C4. Rendering joins, with a blank line between them and in emission
    order, the texts of the segments that are not thoughts, and collects
    the images of the other non-thought segments in order; the thought
    segments have no effect on the result, whatever they hold; and
    [thought, text("a"), image(X), text("b")] renders to "a", blank line,
    "b" with the image list [X]. *)
Theorem format_model_response_thoughts :
  (forall response,
     _format_model_response response
     = (match omap visible_text (response_parts response) with
        | [] => or_empty (response_text response)
        | texts => join [nl; nl] texts
        end,
        omap visible_image (response_parts response)))
  /\ (forall hidden hidden_image,
        let part := {| thought := Some true; part_text := hidden;
                       as_image := hidden_image |} in
        visible_text part = None /\ visible_image part = None)
  /\ (forall ps fallback,
        _format_model_response
          {| response_parts := filter (fun part => negb (is_thought part)) ps;
             response_text := fallback |}
        = _format_model_response
            {| response_parts := ps; response_text := fallback |})
  /\ (forall (hidden : option pystr) (hidden_image : option Image)
             (X : Image) (fallback : option pystr),
        _format_model_response
          {| response_parts :=
               [ {| thought := Some true; part_text := hidden;
                    as_image := hidden_image |};
                 {| thought := None; part_text := Some (str "a");
                    as_image := None |};
                 {| thought := None; part_text := None;
                    as_image := Some X |};
                 {| thought := None; part_text := Some (str "b");
                    as_image := None |} ];
             response_text := fallback |}
        = (str "a" ++ [nl; nl] ++ str "b", [save X (save_format X)])).
Proof.
  split; [exact format_model_response_eq|].
  split; [intros hidden hidden_image; split; reflexivity|].
  split.
  { intros ps fallback. rewrite !format_model_response_eq. simpl.
    rewrite !omap_drop_thoughts; [reflexivity|..];
      intros part Ht; unfold visible_text, visible_image; now rewrite Ht. }
  intros hidden hidden_image X fallback. reflexivity.
Qed.

(** ** Delivery *)

Module DeliverFacts.

(** The uploads of lines 191-198, as events. *)
Fixpoint upload_events (images : list bytes) (idx : nat)
    (channel thread_ts : pystr) : list event :=
  match images with
  | [] => []
  | image_bytes :: rest =>
      FilesUpload channel thread_ts
        (str "gemini-response-" ++ str_of_nat idx ++ str ".png")
        (str "Gemini response " ++ str_of_nat idx)
        image_bytes
      :: upload_events rest (S idx) channel thread_ts
  end.

Definition say_events (chunks : list pystr) (thread_ts : pystr)
  : list event :=
  map (fun chunk => Say chunk chunk thread_ts) chunks.

Lemma say_each_run chunks thread_ts tr :
  say_each chunks thread_ts tr = (Ok tt, tr ++ say_events chunks thread_ts).
Proof.
  revert tr. induction chunks as [|chunk rest IH]; intros tr; simpl.
  - unfold ret. now rewrite app_nil_r.
  - unfold bind, say, emit. rewrite IH. now rewrite <- app_assoc.
Qed.

Lemma upload_each_run images : forall idx channel thread_ts tr,
  upload_each images idx channel thread_ts tr
  = (Ok tt, tr ++ upload_events images idx channel thread_ts).
Proof.
  induction images as [|image rest IH]; intros idx channel thread_ts tr;
    simpl.
  - unfold ret. now rewrite app_nil_r.
  - unfold bind, emit. rewrite IH. now rewrite <- app_assoc.
Qed.

(** With the default limit [_split_text] does not raise. *)
Lemma split_default_total reply_text :
  exists chunks, _split_text reply_text default_limit = Some chunks.
Proof.
  eexists. now apply split_text_positive.
Qed.

Lemma substitute_empty_not_nil chunks reply_images :
  substitute_empty chunks reply_images <> [].
Proof.
  unfold substitute_empty.
  destruct (forallb _ chunks) eqn:E.
  - now destruct reply_images.
  - intros ->. discriminate.
Qed.

(** What [deliver] does on any reply: one [say] per final chunk, then
    one upload per image. *)
Lemma deliver_run reply_text reply_images channel thread_ts tr chunks :
  _split_text reply_text default_limit = Some chunks ->
  deliver reply_text reply_images channel thread_ts tr
  = (Ok tt,
     tr ++ say_events (substitute_empty chunks reply_images) thread_ts
        ++ upload_events reply_images 1 channel thread_ts).
Proof.
  intros E. unfold deliver. rewrite E.
  pose proof (@substitute_empty_not_nil chunks reply_images) as Hne.
  destruct (substitute_empty chunks reply_images) as [|first rest];
    [congruence|].
  unfold bind, say, emit. rewrite say_each_run, upload_each_run.
  simpl. now rewrite <- !app_assoc.
Qed.

End DeliverFacts.
Import DeliverFacts.

(** C9. When every chunk of the rendered text is empty, the caller
    replaces the chunks by one non-empty placeholder: the note that the
    results are attached when there are images, the note that there is
    no content otherwise; delivery then posts that single chunk and
    uploads every image of the unchanged image list, in order. *)
Theorem empty_chunks_substituted
    (reply_text : pystr) (reply_images : list bytes) (chunks : list pystr)
    (channel thread_ts : pystr) (tr : list event) :
  _split_text reply_text default_limit = Some chunks ->
  Forall (fun chunk => chunk = []) chunks ->
  let placeholder :=
    match reply_images with
    | _ :: _ => str "Here are your results from Gemini."
    | [] => str "(no response content)"
    end in
  substitute_empty chunks reply_images = [placeholder]
  /\ placeholder <> []
  /\ deliver reply_text reply_images channel thread_ts tr
     = (Ok tt,
        tr ++ [Say placeholder placeholder thread_ts]
           ++ upload_events reply_images 1 channel thread_ts).
Proof.
  intros E Hall placeholder.
  assert (Hsub : substitute_empty chunks reply_images = [placeholder]).
  { unfold substitute_empty.
    replace (forallb (fun chunk => negb (truthy chunk)) chunks) with true.
    - subst placeholder. now destruct reply_images.
    - symmetry. apply forallb_forall. intros c Hc.
      rewrite Forall_forall in Hall. now rewrite (Hall c Hc). }
  split; [exact Hsub|]. split.
  - subst placeholder. now destruct reply_images.
  - rewrite (@deliver_run _ _ _ _ _ _ E), Hsub. reflexivity.
Qed.

Lemma empty_chunks_substituted_witness :
  substitute_empty [[]] [[Byte.x89]] = [str "Here are your results from Gemini."]
  /\ str "Here are your results from Gemini." <> []
  /\ deliver [] [[Byte.x89]] (str "C1") (str "1.0") []
     = (Ok tt,
        [Say (str "Here are your results from Gemini.")
             (str "Here are your results from Gemini.") (str "1.0")]
        ++ upload_events [[Byte.x89]] 1 (str "C1") (str "1.0")).
Proof.
  apply (@empty_chunks_substituted [] [[Byte.x89]] [[]] (str "C1") (str "1.0") []).
  - reflexivity.
  - constructor; [reflexivity | constructor].
Defined.

(** ** Attachments *)

Module FileFacts.

Lemma eqb_true_iff (a b : pystr) : PyStr.eqb a b = true <-> a = b.
Proof.
  unfold PyStr.eqb. destruct (list_eq_dec N.eq_dec a b); split;
    congruence.
Qed.





(** The part an admitted attachment becomes, from the fetched response. *)
Definition part_of_response (m : pystr) (r : Response) : Part :=
  if startswith m (str "text/") then from_text (resp_text r)
  else from_bytes (resp_content r) m.

Section WithHost.

Variable host : pystr -> get_outcome.

Lemma files_loop_no_url f rest parts tr :
  opt_truthy (url_private_download f) = false ->
  files_loop host (f :: rest) parts tr = files_loop host rest parts tr.
Proof. intros H. simpl. now rewrite H. Qed.

Lemma files_loop_unsupported f rest parts tr :
  supported (or_empty (mimetype f)) = false ->
  files_loop host (f :: rest) parts tr = files_loop host rest parts tr.
Proof.
  intros H. simpl. rewrite H.
  now destruct (opt_truthy (url_private_download f)).
Qed.

Lemma files_loop_fetched f rest parts tr r :
  opt_truthy (url_private_download f) = true ->
  supported (or_empty (mimetype f)) = true ->
  host (or_empty (url_private_download f)) = Responded r ->
  is_success r = true ->
  files_loop host (f :: rest) parts tr
  = files_loop host rest
      (parts ++ [part_of_response (or_empty (mimetype f)) r])
      (tr ++ [HttpGet (or_empty (url_private_download f))]).
Proof.
  intros Hu Hs Hr Hok. simpl. rewrite Hu, Hs. simpl.
  unfold bind, http_get, emit, raise_for_status, part_of_response.
  unfold bind. rewrite Hr. simpl. rewrite Hok. simpl.
  now destruct (startswith (or_empty (mimetype f)) (str "text/")).
Qed.

(** A fetch that fails: no response, or a response that is not 2xx. *)
Definition fetch_error (url : pystr) : option exn :=
  match host url with
  | Responded r =>
      if is_success r then None else Some (HTTPStatusError (status_code r))
  | TimedOut => Some TimeoutException
  | TransportFailed => Some TransportError
  end.

Lemma files_loop_fetch_fails f rest parts tr e :
  opt_truthy (url_private_download f) = true ->
  supported (or_empty (mimetype f)) = true ->
  fetch_error (or_empty (url_private_download f)) = Some e ->
  files_loop host (f :: rest) parts tr
  = (Raise e, tr ++ [HttpGet (or_empty (url_private_download f))]).
Proof.
  intros Hu Hs He. simpl. rewrite Hu, Hs. simpl.
  unfold fetch_error in He.
  unfold bind, http_get, emit, raise_for_status. unfold bind.
  destruct (host (or_empty (url_private_download f))) as [r| |]; simpl.
  - destruct (is_success r); [discriminate|]. now injection He as <-.
  - now injection He as <-.
  - now injection He as <-.
Qed.

(** An attachment without a URL may be dropped from anywhere in the
    list. *)
Lemma files_loop_drop_no_url pre f post :
  opt_truthy (url_private_download f) = false ->
  forall parts tr,
    files_loop host (pre ++ f :: post) parts tr
    = files_loop host (pre ++ post) parts tr.
Proof.
  intros Hf. induction pre as [|x pre IH]; intros parts tr.
  - now apply files_loop_no_url.
  - simpl.
    destruct (opt_truthy (url_private_download x)); simpl; [|apply IH].
    destruct (supported (or_empty (mimetype x))); simpl; [|apply IH].
    unfold bind, http_get, emit, raise_for_status. unfold bind.
    destruct (host (or_empty (url_private_download x))) as [r| |]; simpl;
      try reflexivity.
    destruct (is_success r); simpl; [|reflexivity].
    destruct (startswith (or_empty (mimetype x)) (str "text/")); apply IH.
Qed.

End WithHost.

End FileFacts.
Import FileFacts.

(** C10. In the loop over a message's attachments, a descriptor without
    a download URL (absent or empty) is passed over whatever its media
    type: the loop gives the parts, the result and the requests it gives
    on the list without that descriptor, so nothing is fetched for it,
    nothing is raised for it, and the other attachments are processed as
    usual. *)
Theorem url_less_descriptor_skipped
    (host : pystr -> get_outcome) (pre post : list File) (f : File)
    (parts : list Part) (tr : list event) :
  opt_truthy (url_private_download f) = false ->
  files_loop host (pre ++ f :: post) parts tr
  = files_loop host (pre ++ post) parts tr.
Proof. intros Hf. now apply files_loop_drop_no_url. Qed.

Definition png_without_url : File :=
  {| mimetype := Some (str "image/png"); url_private_download := None |}.

Definition note_txt : File :=
  {| mimetype := Some (str "text/plain");
     url_private_download := Some (str "https://files.slack.com/note.txt") |}.

Definition host_ok (url : pystr) : get_outcome :=
  Responded {| status_code := 200;
               resp_content := [Byte.x68; Byte.x69];
               resp_text := str "hi" |}.

Lemma url_less_descriptor_skipped_witness :
  supported (or_empty (mimetype png_without_url)) = true
  /\ files_loop host_ok ([note_txt] ++ png_without_url :: [note_txt]) [] []
     = files_loop host_ok ([note_txt] ++ [note_txt]) [] [].
Proof.
  split; [reflexivity|].
  apply (@url_less_descriptor_skipped host_ok [note_txt] [note_txt]
           png_without_url [] []).
  reflexivity.
Defined.



(** ** Sorting by timestamp *)

Module SortFacts.

Definition ts_le (a b : Message) : Prop := (ts a <= ts b)%Q.
Definition ts_lt (a b : Message) : Prop := (ts a < ts b)%Q.

(** The messages whose timestamp is [q]. *)
Definition at_ts (q : Q) (m : Message) : bool := Qeq_bool (ts m) q.

Lemma Qle_bool_false (a b : Q) : Qle_bool a b = false -> (b < a)%Q.
Proof.
  intros H. apply Qnot_le_lt. intros Hle.
  apply Qle_bool_iff in Hle. congruence.
Qed.

Lemma insert_by_ts_perm m l : Permutation (insert_by_ts m l) (m :: l).
Proof.
  induction l as [|x rest IH]; simpl; [reflexivity|].
  destruct (Qle_bool (ts m) (ts x)); [reflexivity|].
  rewrite IH. apply perm_swap.
Qed.

Lemma sorted_by_ts_perm msgs : Permutation (sorted_by_ts msgs) msgs.
Proof.
  induction msgs as [|m rest IH]; simpl; [reflexivity|].
  rewrite insert_by_ts_perm. now constructor.
Qed.

Lemma Forall_insert_by_ts (P : Message -> Prop) m l :
  Forall P (m :: l) -> Forall P (insert_by_ts m l).
Proof.
  apply Permutation_Forall. symmetry. apply insert_by_ts_perm.
Qed.

Lemma insert_by_ts_sorted m l :
  StronglySorted ts_le l -> StronglySorted ts_le (insert_by_ts m l).
Proof.
  induction 1 as [|x rest Hsorted IH Hx]; simpl.
  - repeat constructor.
  - destruct (Qle_bool (ts m) (ts x)) eqn:E.
    + apply Qle_bool_iff in E. constructor.
      * now constructor.
      * constructor; [exact E|].
        eapply Forall_impl; [|exact Hx]. intros y Hy.
        unfold ts_le in *. now apply Qle_trans with (ts x).
    + apply Qle_bool_false in E. constructor; [exact IH|].
      apply Forall_insert_by_ts.
      constructor; [now apply Qlt_le_weak | exact Hx].
Qed.

Lemma sorted_by_ts_sorted msgs : StronglySorted ts_le (sorted_by_ts msgs).
Proof.
  induction msgs as [|m rest IH]; simpl; [constructor|].
  now apply insert_by_ts_sorted.
Qed.

(** Stability: insertion steps over strictly smaller keys only, so the
    messages of any one timestamp keep their relative order. *)
Lemma insert_by_ts_at_ts q m l :
  filter (at_ts q) (insert_by_ts m l) = filter (at_ts q) (m :: l).
Proof.
  induction l as [|x rest IH]; [reflexivity|].
  simpl insert_by_ts. destruct (Qle_bool (ts m) (ts x)) eqn:E;
    [reflexivity|].
  apply Qle_bool_false in E.
  change (filter (at_ts q) (x :: insert_by_ts m rest))
    with (if at_ts q x then x :: filter (at_ts q) (insert_by_ts m rest)
          else filter (at_ts q) (insert_by_ts m rest)).
  rewrite IH. simpl.
  destruct (at_ts q x) eqn:Ex; [|reflexivity].
  destruct (at_ts q m) eqn:Em; [|reflexivity].
  exfalso. unfold at_ts in Em, Ex.
  apply Qeq_bool_iff in Ex. apply Qeq_bool_iff in Em.
  rewrite Ex, Em in E. now apply Qlt_irrefl in E.
Qed.

Lemma sorted_by_ts_stable q msgs :
  filter (at_ts q) (sorted_by_ts msgs) = filter (at_ts q) msgs.
Proof.
  induction msgs as [|m rest IH]; [reflexivity|].
  simpl sorted_by_ts. rewrite insert_by_ts_at_ts. simpl. now rewrite IH.
Qed.

(** With pairwise different timestamps the order is strict. *)
Definition distinct_ts (msgs : list Message) : Prop :=
  ForallOrdPairs (fun a b => ~ (ts a == ts b)%Q) msgs.

Lemma insert_by_ts_strict m l :
  Forall (fun x => ~ (ts m == ts x)%Q) l ->
  StronglySorted ts_lt l -> StronglySorted ts_lt (insert_by_ts m l).
Proof.
  intros Hm Hsorted. induction Hsorted as [|x rest Hsorted IH Hx]; simpl.
  - repeat constructor.
  - inversion Hm as [|? ? Hmx Hmrest]; subst.
    destruct (Qle_bool (ts m) (ts x)) eqn:E.
    + apply Qle_bool_iff in E.
      assert (Hlt : (ts m < ts x)%Q).
      { apply Qle_lteq in E. destruct E as [E|E]; [exact E|contradiction]. }
      constructor; [now constructor|].
      constructor; [exact Hlt|].
      eapply Forall_impl; [|exact Hx]. intros y Hy.
      unfold ts_lt in *. now apply Qlt_trans with (ts x).
    + apply Qle_bool_false in E. constructor; [now apply IH|].
      apply Forall_insert_by_ts. now constructor.
Qed.

Lemma sorted_by_ts_strict msgs :
  distinct_ts msgs -> StronglySorted ts_lt (sorted_by_ts msgs).
Proof.
  induction 1 as [|m rest Hm Hrest IH]; simpl; [constructor|].
  apply insert_by_ts_strict; [|exact IH].
  apply (Permutation_Forall (Permutation_sym (sorted_by_ts_perm rest))).
  exact Hm.
Qed.

End SortFacts.
Import SortFacts.

(** ** Assembly *)

Module AssembleFacts.

Section WithHost.

Variable host : pystr -> get_outcome.

(** The only events of the attachment loop are requests. *)
Definition is_get (e : event) : Prop :=
  match e with HttpGet _ => True | _ => False end.

Ltac step_fetch x :=
  unfold bind, http_get, emit, raise_for_status; unfold bind;
  destruct (host (or_empty (url_private_download x))) as [?r| |]; simpl;
  [destruct (is_success r); simpl|..].

Lemma files_loop_fst fs : forall parts tr tr',
  fst (files_loop host fs parts tr) = fst (files_loop host fs parts tr').
Proof.
  induction fs as [|x rest IH]; intros parts tr tr'; [reflexivity|].
  simpl.
  destruct (opt_truthy (url_private_download x)); simpl; [|apply IH].
  destruct (supported (or_empty (mimetype x))); simpl; [|apply IH].
  step_fetch x; try reflexivity.
  destruct (startswith (or_empty (mimetype x)) (str "text/")); apply IH.
Qed.

Lemma files_loop_trace fs : forall parts tr,
  exists gets,
    snd (files_loop host fs parts tr) = tr ++ gets /\ Forall is_get gets.
Proof.
  induction fs as [|x rest IH]; intros parts tr.
  - exists []. simpl. now rewrite app_nil_r.
  - simpl.
    destruct (opt_truthy (url_private_download x)); simpl; [|apply IH].
    destruct (supported (or_empty (mimetype x))); simpl; [|apply IH].
    assert (Hone : Forall is_get
                     [HttpGet (or_empty (url_private_download x))])
      by (constructor; [exact I | constructor]).
    step_fetch x;
      try (eexists; split; [reflexivity | exact Hone]).
    destruct (startswith (or_empty (mimetype x)) (str "text/"));
      match goal with
      | |- context [files_loop host rest ?p ?t] =>
          destruct (IH p t) as (gets & E & Hg)
      end;
      (exists (HttpGet (or_empty (url_private_download x)) :: gets);
       split; [rewrite E; now rewrite <- app_assoc
              | constructor; [exact I | exact Hg]]).
Qed.

(** The loop only appends to [parts]. *)
Lemma files_loop_extends fs : forall parts tr ps,
  fst (files_loop host fs parts tr) = Ok ps -> exists more, ps = parts ++ more.
Proof.
  induction fs as [|x rest IH]; intros parts tr ps.
  - simpl. intros [= <-]. exists []. now rewrite app_nil_r.
  - simpl.
    destruct (opt_truthy (url_private_download x)); simpl; [|apply IH].
    destruct (supported (or_empty (mimetype x))); simpl; [|apply IH].
    step_fetch x; try discriminate.
    destruct (startswith (or_empty (mimetype x)) (str "text/"));
      intros H; apply IH in H; destruct H as (more & ->);
      rewrite <- app_assoc; eexists; reflexivity.
Qed.

(** A failing fetch of an admitted attachment makes the loop raise: at
    that attachment, or at an earlier one. *)
Lemma files_loop_raises fs f e :
  In f fs ->
  opt_truthy (url_private_download f) = true ->
  supported (or_empty (mimetype f)) = true ->
  fetch_error host (or_empty (url_private_download f)) = Some e ->
  forall parts tr, exists e', fst (files_loop host fs parts tr) = Raise e'.
Proof.
  intros Hin Hu Hs He.
  induction fs as [|x rest IH]; intros parts tr; [destruct Hin|].
  destruct Hin as [->|Hin].
  - exists e. now rewrite (files_loop_fetch_fails host f rest parts tr Hu Hs He).
  - specialize (IH Hin). simpl.
    destruct (opt_truthy (url_private_download x)); simpl; [|apply IH].
    destruct (supported (or_empty (mimetype x))); simpl; [|apply IH].
    step_fetch x; try (eexists; reflexivity).
    destruct (startswith (or_empty (mimetype x)) (str "text/")); apply IH.
Qed.

(** The outcome of lines 57-89 for one message: its parts, or the
    exception of the first failing fetch. *)
Definition parts_result (msg : Message) : result (list Part) :=
  fst (message_parts host msg []).

Lemma message_parts_fst msg tr :
  fst (message_parts host msg tr) = parts_result msg.
Proof. apply files_loop_fst. Qed.

Lemma message_parts_trace msg tr :
  exists gets,
    snd (message_parts host msg tr) = tr ++ gets /\ Forall is_get gets.
Proof. apply files_loop_trace. Qed.

(** The turn a message produces, if it produces one. *)
Definition turn_of (msg : Message) : option Content :=
  match parts_result msg with
  | Ok (p :: ps) => Some {| role := role_of msg; parts := p :: ps |}
  | _ => None
  end.

(** The exception of the first message whose parts cannot be built. *)
Fixpoint first_error (msgs : list Message) : option exn :=
  match msgs with
  | [] => None
  | msg :: rest =>
      match parts_result msg with
      | Raise e => Some e
      | Ok _ => first_error rest
      end
  end.

Lemma messages_loop_fst msgs : forall contents tr,
  fst (messages_loop host msgs contents tr)
  = match first_error msgs with
    | Some e => Raise e
    | None => Ok (contents ++ omap turn_of msgs)
    end.
Proof.
  induction msgs as [|msg rest IH]; intros contents tr; simpl.
  - now rewrite app_nil_r.
  - unfold bind, turn_of.
    pose proof (message_parts_fst msg tr) as E.
    destruct (message_parts host msg tr) as [[ps|e] tr']; simpl in E;
      rewrite <- E; [|reflexivity].
    destruct ps as [|p ps]; rewrite IH;
      destruct (first_error rest); try reflexivity.
    now rewrite <- app_assoc.
Qed.

Lemma messages_loop_trace msgs : forall contents tr,
  exists gets,
    snd (messages_loop host msgs contents tr) = tr ++ gets
    /\ Forall is_get gets.
Proof.
  induction msgs as [|msg rest IH]; intros contents tr; simpl.
  - exists []. now rewrite app_nil_r.
  - unfold bind.
    destruct (message_parts_trace msg tr) as (g1 & E1 & H1).
    destruct (message_parts host msg tr) as [[ps|e] tr']; simpl in E1;
      subst tr'; [|now exists g1].
    destruct ps as [|p ps];
      match goal with
      | |- context [messages_loop host rest ?c ?t] =>
          destruct (IH c t) as (g2 & E2 & H2)
      end;
      (exists (g1 ++ g2); split;
       [rewrite E2; now rewrite app_assoc | now apply Forall_app]).
Qed.

(** The turns of the sorted messages, or the placeholder. *)
Definition turns_or_placeholder (msgs : list Message) : list Content :=
  match omap turn_of (sorted_by_ts msgs) with
  | [] => placeholder
  | turns => turns
  end.

Lemma assemble_fst msgs tr :
  fst (assemble host msgs tr)
  = match first_error (sorted_by_ts msgs) with
    | Some e => Raise e
    | None => Ok (turns_or_placeholder msgs)
    end.
Proof.
  unfold assemble, bind, turns_or_placeholder.
  pose proof (messages_loop_fst (sorted_by_ts msgs) [] tr) as E.
  destruct (messages_loop host (sorted_by_ts msgs) [] tr) as [[cs|e] tr'];
    simpl in E; destruct (first_error (sorted_by_ts msgs));
    try discriminate.
  - injection E as ->. simpl.
    now destruct (omap turn_of (sorted_by_ts msgs)).
  - now injection E as ->.
Qed.

Lemma assemble_trace msgs tr :
  exists gets,
    snd (assemble host msgs tr) = tr ++ gets /\ Forall is_get gets.
Proof.
  unfold assemble, bind.
  destruct (messages_loop_trace (sorted_by_ts msgs) [] tr) as (g & E & H).
  destruct (messages_loop host (sorted_by_ts msgs) [] tr) as [[cs|e] tr'];
    simpl in E; subst tr'; [|now exists g].
  destruct cs; now exists g.
Qed.

Lemma first_error_none msgs :
  Forall (fun m => exists ps, parts_result m = Ok ps) msgs ->
  first_error msgs = None.
Proof.
  induction 1 as [|m rest [ps Hm] _ IH]; simpl; [reflexivity|].
  now rewrite Hm.
Qed.

Lemma first_error_some msgs m e :
  In m msgs -> parts_result m = Raise e ->
  exists e', first_error msgs = Some e'.
Proof.
  intros Hin Hm. induction msgs as [|x rest IH]; [destruct Hin|].
  simpl. destruct Hin as [->|Hin].
  - rewrite Hm. now exists e.
  - destruct (parts_result x); [now apply IH | eexists; reflexivity].
Qed.

Lemma omap_turn_of_nil msgs :
  Forall (fun m => parts_result m = Ok []) msgs -> omap turn_of msgs = [].
Proof.
  induction 1 as [|m rest Hm _ IH]; simpl; [reflexivity|].
  unfold turn_of. now rewrite Hm.
Qed.

Lemma omap_turn_of_parts msgs :
  Forall (fun c => parts c <> []) (omap turn_of msgs).
Proof.
  induction msgs as [|m rest IH]; simpl; [constructor|].
  unfold turn_of. destruct (parts_result m) as [[|p ps]|]; try exact IH.
  constructor; [discriminate | exact IH].
Qed.

End WithHost.

End AssembleFacts.
Import AssembleFacts.

Lemma build_contents_fst host replies channel thread_ts msgs tr :
  replies channel thread_ts = Some msgs ->
  fst (_build_contents_from_thread host replies channel thread_ts tr)
  = match first_error host (sorted_by_ts msgs) with
    | Some e => Raise e
    | None => Ok (turns_or_placeholder host msgs)
    end.
Proof.
  intros E. unfold _build_contents_from_thread, bind, emit. rewrite E.
  apply assemble_fst.
Qed.

Lemma Forall_sorted_by_ts (P : Message -> Prop) msgs :
  Forall P msgs -> Forall P (sorted_by_ts msgs).
Proof.
  apply Permutation_Forall. symmetry. apply sorted_by_ts_perm.
Qed.

(** Two sorted lists that agree on the messages of every timestamp, in
    order, are the same list: a stable sort by timestamp has one possible
    result, whatever the algorithm. *)
Lemma stable_sorted_unique l1 : forall l2,
  StronglySorted ts_le l1 -> StronglySorted ts_le l2 ->
  (forall q, filter (at_ts q) l1 = filter (at_ts q) l2) ->
  l1 = l2.
Proof.
  assert (Hself : forall m, at_ts (ts m) m = true).
  { intros m. unfold at_ts. apply Qeq_bool_iff. reflexivity. }
  assert (Hhead : forall x r1 y r2,
            StronglySorted ts_le (x :: r1) ->
            StronglySorted ts_le (y :: r2) ->
            (forall q, filter (at_ts q) (x :: r1)
                       = filter (at_ts q) (y :: r2)) ->
            at_ts (ts x) y = true).
  { intros x r1 y r2 S1 S2 Hf.
    destruct (at_ts (ts x) y) eqn:Exy; [reflexivity|exfalso].
    assert (Hx : In x r2).
    { pose proof (Hf (ts x)) as H. simpl in H.
      rewrite Hself, Exy in H.
      assert (Hin : In x (filter (at_ts (ts x)) r2))
        by (rewrite <- H; now left).
      now apply filter_In in Hin. }
    assert (Eyx : at_ts (ts y) x = false).
    { unfold at_ts in *. destruct (Qeq_bool (ts x) (ts y)) eqn:E;
        [|reflexivity].
      apply Qeq_bool_iff in E.
      assert (Qeq_bool (ts y) (ts x) = true)
        by (apply Qeq_bool_iff; now symmetry).
      congruence. }
    assert (Hy : In y r1).
    { pose proof (Hf (ts y)) as H. simpl in H.
      rewrite Hself, Eyx in H.
      assert (Hin : In y (filter (at_ts (ts y)) r1))
        by (rewrite H; now left).
      now apply filter_In in Hin. }
    apply StronglySorted_inv in S1. destruct S1 as [_ S1].
    apply StronglySorted_inv in S2. destruct S2 as [_ S2].
    rewrite Forall_forall in S1, S2.
    pose proof (S1 y Hy) as Hxy. pose proof (S2 x Hx) as Hyx.
    unfold ts_le in *.
    assert (E : (ts y == ts x)%Q) by now apply Qle_antisym.
    apply Qeq_bool_iff in E. unfold at_ts in Exy. congruence. }
  induction l1 as [|x r1 IH]; intros l2 S1 S2 Hf.
  - destruct l2 as [|y r2]; [reflexivity|].
    specialize (Hf (ts y)). simpl in Hf. now rewrite Hself in Hf.
  - destruct l2 as [|y r2].
    { specialize (Hf (ts x)). simpl in Hf. now rewrite Hself in Hf. }
    pose proof (Hhead x r1 y r2 S1 S2 Hf) as Exy.
    assert (x = y).
    { pose proof (Hf (ts x)) as H. simpl in H. rewrite Hself, Exy in H.
      now injection H. }
    subst y. f_equal.
    apply StronglySorted_inv in S1. apply StronglySorted_inv in S2.
    apply IH; try tauto.
    intros q. specialize (Hf q). simpl in Hf.
    destruct (at_ts q x); [now injection Hf | exact Hf].
Qed.

(** C8. When the thread has no message, or only messages that yield no
    part, the assembly returns exactly one turn, of role "user", whose
    single part is the text "(no content)"; and whatever the thread, a
    returned sequence is not empty and holds no turn without parts. *)
Theorem empty_thread_fallback
    (host : pystr -> get_outcome)
    (replies : pystr -> pystr -> option (list Message))
    (channel thread_ts : pystr) (msgs : list Message) (tr : list event) :
  replies channel thread_ts = Some msgs ->
  (Forall (fun m => parts_result host m = Ok []) msgs ->
   fst (_build_contents_from_thread host replies channel thread_ts tr)
   = Ok [{| role := str "user";
            parts := [from_text (str "(no content)")] |}])
  /\ (forall contents,
        fst (_build_contents_from_thread host replies channel thread_ts tr)
        = Ok contents ->
        contents <> [] /\ Forall (fun c => parts c <> []) contents).
Proof.
  intros E. rewrite (build_contents_fst host replies channel thread_ts tr E).
  split.
  - intros Hall. apply Forall_sorted_by_ts in Hall.
    rewrite first_error_none.
    + unfold turns_or_placeholder. now rewrite omap_turn_of_nil.
    + eapply Forall_impl; [|exact Hall]. intros m Hm. now exists [].
  - intros contents.
    destruct (first_error host (sorted_by_ts msgs)); [discriminate|].
    intros [= <-]. unfold turns_or_placeholder.
    pose proof (omap_turn_of_parts host (sorted_by_ts msgs)) as Hp.
    destruct (omap (turn_of host) (sorted_by_ts msgs)) as [|c cs].
    + split; [discriminate|]. repeat constructor. discriminate.
    + split; [discriminate | exact Hp].
Qed.

Definition silent_message : Message :=
  {| ts := 1 # 1; bot_id := None; subtype := None; text := Some (str "<@U1> ");
     blocks := None;
     files := Some [png_without_url;
                    {| mimetype := Some (str "application/zip");
                       url_private_download := Some (str "https://x/z") |}]
  |}.

Lemma empty_thread_fallback_witness :
  fst (_build_contents_from_thread host_ok
         (fun _ _ => Some [silent_message]) (str "C1") (str "1.0") [])
  = Ok [{| role := str "user"; parts := [from_text (str "(no content)")] |}].
Proof.
  apply (@empty_thread_fallback host_ok (fun _ _ => Some [silent_message])
           (str "C1") (str "1.0") [silent_message] [] eq_refl).
  constructor; [reflexivity | constructor].
Defined.

(** C6. When no fetch fails, the assembly returns the turns of the
    messages that produce one, taken in the order of the sorted
    messages (the placeholder if there is none), where the sorted
    messages are the input messages in ascending timestamp order, the
    messages of one timestamp staying in their fetch order; with
    pairwise distinct timestamps the order is strictly ascending. *)
Theorem assembled_in_timestamp_order
    (host : pystr -> get_outcome) (msgs : list Message) (tr : list event) :
  Forall (fun m => exists ps, parts_result host m = Ok ps) msgs ->
  let sorted := sorted_by_ts msgs in
  fst (assemble host msgs tr)
  = Ok (match omap (turn_of host) sorted with
        | [] => placeholder
        | turns => turns
        end)
  /\ Permutation sorted msgs
  /\ StronglySorted ts_le sorted
  /\ (forall q, filter (at_ts q) sorted = filter (at_ts q) msgs)
  /\ (distinct_ts msgs -> StronglySorted ts_lt sorted).
Proof.
  intros Hok sorted. split; [|split; [|split; [|split]]].
  - rewrite assemble_fst, first_error_none; [reflexivity|].
    now apply Forall_sorted_by_ts.
  - apply sorted_by_ts_perm.
  - apply sorted_by_ts_sorted.
  - intros q. apply sorted_by_ts_stable.
  - apply sorted_by_ts_strict.
Qed.

Definition msg_second : Message :=
  {| ts := 2 # 1; bot_id := None; subtype := None;
     text := Some (str "second"); blocks := None; files := None |}.

Definition msg_first : Message :=
  {| ts := 1 # 1; bot_id := Some (str "B1"); subtype := None;
     text := Some (str "first"); blocks := None; files := None |}.

Definition msg_third : Message :=
  {| ts := 4 # 2; bot_id := None; subtype := None;
     text := Some (str "third"); blocks := None; files := Some [note_txt] |}.

Lemma assembled_in_timestamp_order_witness :
  fst (assemble host_ok [msg_second; silent_message; msg_first; msg_third] [])
  = Ok [ {| role := str "model"; parts := [from_text (str "first")] |};
         {| role := str "user"; parts := [from_text (str "second")] |};
         {| role := str "user";
            parts := [from_text (str "third"); from_text (str "hi")] |} ].
Proof.
  apply (@assembled_in_timestamp_order host_ok
           [msg_second; silent_message; msg_first; msg_third] []).
  repeat constructor; eexists; reflexivity.
Defined.

(** ** Orchestration *)

Module HandlerFacts.

Section WithCollaborators.

Variable host : pystr -> get_outcome.
Variable replies : pystr -> pystr -> option (list Message).
Variable call_gemini : list Content -> pystr + GenerateContentResponse.

Lemma build_contents_run channel thread_ts msgs tr :
  replies channel thread_ts = Some msgs ->
  exists gets,
    _build_contents_from_thread host replies channel thread_ts tr
    = (match first_error host (sorted_by_ts msgs) with
       | Some e => Raise e
       | None => Ok (turns_or_placeholder host msgs)
       end,
       tr ++ [ConversationsReplies channel thread_ts] ++ gets)
    /\ Forall is_get gets.
Proof.
  intros E.
  pose proof (build_contents_fst host replies channel thread_ts tr E) as Hf.
  unfold _build_contents_from_thread, bind, emit in *. rewrite E in *.
  destruct (assemble_trace host msgs
              (tr ++ [ConversationsReplies channel thread_ts]))
    as (gets & Hs & Hg).
  exists gets. split; [|exact Hg].
  rewrite (surjective_pairing (assemble host msgs _)), Hf, Hs.
  now rewrite <- app_assoc.
Qed.

(** The thread the handler replies in (line 136). *)
Definition reply_thread (event : SlackEvent) : pystr :=
  if opt_truthy (thread_ts event) then or_empty (thread_ts event)
  else event_ts event.

(** The reply to a failed model call: the chunks of the error text, no
    image. *)
Lemma error_reply_run e :
  exists chunks,
    _split_text (str "Error from Gemini: " ++ e) default_limit = Some chunks
    /\ chunks <> []
    /\ concat chunks = str "Error from Gemini: " ++ e
    /\ forall channel thread_ts tr,
         deliver (str "Error from Gemini: " ++ e) [] channel thread_ts tr
         = (Ok tt, tr ++ say_events chunks thread_ts).
Proof.
  set (text := str "Error from Gemini: " ++ e).
  assert (Hne : text <> []) by (subst text; discriminate).
  set (chunks := chunks_of text (Z.to_nat default_limit)).
  assert (E : _split_text text default_limit = Some chunks).
  { now rewrite (@split_text_positive text default_limit eq_refl). }
  assert (Hcat : concat chunks = text).
  { apply chunks_of_concat. unfold default_limit. lia. }
  assert (Hall : Forall (fun c => c <> []) chunks).
  { apply chunks_of_nonempty; [unfold default_limit; lia | exact Hne]. }
  exists chunks. split; [exact E|]. split.
  { intros Hnil. rewrite Hnil in Hcat. simpl in Hcat. congruence. }
  split; [exact Hcat|]. intros channel thread_ts tr.
  rewrite (@deliver_run _ _ _ _ _ _ E). cbn [upload_events].
  clear E. clearbody chunks.
  rewrite app_nil_r. do 3 f_equal. unfold substitute_empty.
  replace (forallb (fun chunk => negb (truthy chunk)) chunks) with false;
    [reflexivity|].
  symmetry. destruct chunks as [|c cs].
  - simpl in Hcat. congruence.
  - inversion Hall as [|? ? Hc _]; subst. simpl.
    destruct c; [congruence | reflexivity].
Qed.

End WithCollaborators.

End HandlerFacts.
Import HandlerFacts.

(** C1 (as amended). When the fetch of an admitted attachment of some
    message of the thread fails (timeout, transport error, or a status
    that is not 2xx), the assembly raises and returns no turn; the
    handler does not catch that exception: it ends with it, having only
    acknowledged the event, asked for the thread and requested
    attachments, so the model is not called and nothing is posted.  The
    failure the handler converts into a reply is that of the model call:
    the chunks of "Error from Gemini: <e>" are posted and no file. *)
Theorem assembly_failure_propagates
    (host : pystr -> get_outcome)
    (replies : pystr -> pystr -> option (list Message))
    (call_gemini : list Content -> pystr + GenerateContentResponse)
    (ev : SlackEvent) (msgs : list Message) (tr : list event) :
  replies (channel ev) (reply_thread ev) = Some msgs ->
  (forall m fs f e,
     In m msgs -> files m = Some fs -> In f fs ->
     opt_truthy (url_private_download f) = true ->
     supported (or_empty (mimetype f)) = true ->
     fetch_error host (or_empty (url_private_download f)) = Some e ->
     exists e' gets,
       fst (_build_contents_from_thread host replies
              (channel ev) (reply_thread ev) (tr ++ [Ack]))
       = Raise e'
       /\ handle_mention host replies call_gemini ev tr
          = (Raise e',
             tr ++ [Ack; ConversationsReplies (channel ev)
                           (reply_thread ev)] ++ gets)
       /\ Forall is_get gets)
  /\ (forall contents err,
        fst (_build_contents_from_thread host replies
               (channel ev) (reply_thread ev) (tr ++ [Ack]))
        = Ok contents ->
        call_gemini contents = inl err ->
        exists gets chunks,
          _split_text (str "Error from Gemini: " ++ err) default_limit
          = Some chunks
          /\ chunks <> []
          /\ handle_mention host replies call_gemini ev tr
             = (Ok tt,
                tr ++ [Ack; ConversationsReplies (channel ev)
                              (reply_thread ev)] ++ gets
                   ++ [GenerateContent contents;
                       LogException (str "Gemini call failed")]
                   ++ say_events chunks (reply_thread ev))
          /\ Forall is_get gets).
Proof.
  intros E.
  destruct (build_contents_run host replies (channel ev)
              (reply_thread ev) (tr ++ [Ack]) E) as (gets & Hrun & Hg).
  split.
  - intros m fs f e Hm Hfs Hf Hu Hs He.
    assert (Hraise : exists e1, parts_result host m = Raise e1).
    { unfold parts_result, message_parts. rewrite Hfs.
      eapply files_loop_raises; eassumption. }
    destruct Hraise as (e1 & He1).
    destruct (@first_error_some host (sorted_by_ts msgs) m e1) as (e' & He').
    { eapply Permutation_in; [|exact Hm]. symmetry.
      apply sorted_by_ts_perm. }
    { exact He1. }
    rewrite He' in Hrun. exists e', gets. split; [now rewrite Hrun|].
    split; [|exact Hg].
    unfold handle_mention, bind, emit. fold (reply_thread ev).
    rewrite Hrun. now rewrite <- app_assoc.
  - intros contents err Hok Herr. rewrite Hrun in Hok. simpl in Hok.
    destruct (first_error host (sorted_by_ts msgs)); [discriminate|].
    injection Hok as Hc. rewrite Hc in Hrun.
    destruct (error_reply_run err) as (chunks & Hsplit & Hne & _ & Hdel).
    exists gets, chunks. split; [exact Hsplit|]. split; [exact Hne|].
    split; [|exact Hg].
    unfold handle_mention, bind, emit. fold (reply_thread ev).
    rewrite Hrun. unfold invoke_and_render, bind, emit. rewrite Herr.
    unfold bind, ret. cbn [fst snd]. rewrite Hdel.
    rewrite <- !app_assoc. reflexivity.
Qed.

Definition cat_png : File :=
  {| mimetype := Some (str "image/png");
     url_private_download := Some (str "https://files.slack.com/cat.png") |}.

Definition msg_with_image : Message :=
  {| ts := 1 # 1; bot_id := None; subtype := None;
     text := Some (str "<@UBOT> describe this"); blocks := None;
     files := Some [cat_png] |}.

Definition host_forbidden (url : pystr) : get_outcome :=
  Responded {| status_code := 403; resp_content := []; resp_text := [] |}.

Definition host_timeout (url : pystr) : get_outcome := TimedOut.

Definition one_message_thread (channel thread_ts : pystr)
  : option (list Message) := Some [msg_with_image].

Definition gemini_echo (contents : list Content)
  : pystr + GenerateContentResponse :=
  inr {| response_parts := []; response_text := Some (str "ok") |}.

Definition mention_event : SlackEvent :=
  {| channel := str "C1"; thread_ts := None; event_ts := str "1.0" |}.

Lemma assembly_failure_propagates_witness :
  exists e' gets,
    fst (_build_contents_from_thread host_timeout one_message_thread
           (channel mention_event) (reply_thread mention_event) ([] ++ [Ack]))
    = Raise e'
    /\ handle_mention host_timeout one_message_thread gemini_echo
         mention_event []
       = (Raise e',
          [] ++ [Ack; ConversationsReplies (channel mention_event)
                        (reply_thread mention_event)] ++ gets)
    /\ Forall is_get gets.
Proof.
  destruct (@assembly_failure_propagates host_timeout one_message_thread
              gemini_echo mention_event [msg_with_image] [] eq_refl)
    as (H & _).
  apply (H msg_with_image [cat_png] cat_png TimeoutException).
  - now left.
  - reflexivity.
  - now left.
  - reflexivity.
  - reflexivity.
  - reflexivity.
Defined.

(** A fetch answered with 403 while the thread is assembled: the handler
    ends with the exception of [raise_for_status]; it has not called the
    model, and has posted no message, so the failure is not turned into
    a reply. *)
Lemma fetch_failure_not_converted :
  handle_mention host_forbidden one_message_thread gemini_echo
    mention_event []
  = (Raise (HTTPStatusError 403),
     [Ack; ConversationsReplies (str "C1") (str "1.0");
      HttpGet (str "https://files.slack.com/cat.png")])
  /\ forall block_text text thread_ts,
       ~ In (Say block_text text thread_ts)
           (snd (handle_mention host_forbidden one_message_thread
                   gemini_echo mention_event [])).
Proof.
  assert (E : handle_mention host_forbidden one_message_thread gemini_echo
                mention_event []
              = (Raise (HTTPStatusError 403),
                 [Ack; ConversationsReplies (str "C1") (str "1.0");
                  HttpGet (str "https://files.slack.com/cat.png")]))
    by reflexivity.
  split; [exact E|].
  intros block_text text thread_ts. rewrite E. simpl.
  intros [H|[H|[H|[]]]]; discriminate.
Qed.

(** ** Mention removal *)

Module MentionFacts.






Lemma sub_mentions_nil : sub_mentions [] = [].
Proof. reflexivity. Qed.










(** [s] neither begins nor ends with whitespace. *)
Definition no_outer_space (s : pystr) : Prop :=
  match s with c :: _ => is_space c = false | [] => True end
  /\ match rev s with c :: _ => is_space c = false | [] => True end.











End MentionFacts.
Import MentionFacts.

(** A message of a human author holding only a text. *)
Definition user_message (s : pystr) : Message :=
  {| ts := 1 # 1; bot_id := None; subtype := None; text := Some s;
     blocks := None; files := None |}.




(** ** Fallback text *)

Module ExtractFacts.

Section JsonInd.

Variable P : json -> Prop.
Hypothesis HNull : P JNull.
Hypothesis HBool : forall b, P (JBool b).
Hypothesis HNum : forall z, P (JNum z).
Hypothesis HStr : forall s, P (JStr s).
Hypothesis HList : forall items, Forall P items -> P (JList items).
Hypothesis HDict :
  forall fields, Forall (fun kv => P (snd kv)) fields -> P (JDict fields).

Fixpoint json_nested_ind (j : json) : P j :=
  match j with
  | JNull => HNull
  | JBool b => HBool b
  | JNum z => HNum z
  | JStr s => HStr s
  | JList items =>
      HList
        ((fix each (l : list json) : Forall P l :=
            match l with
            | [] => Forall_nil P
            | x :: rest => Forall_cons x (json_nested_ind x) (each rest)
            end) items)
  | JDict fields =>
      HDict
        ((fix values (l : list (pystr * json))
            : Forall (fun kv => P (snd kv)) l :=
            match l with
            | [] => Forall_nil _
            | kv :: rest =>
                Forall_cons kv (json_nested_ind (snd kv)) (values rest)
            end) fields)
  end.

End JsonInd.

(** The string a mapping holds under its own "text" key. *)
Definition own_text (fields : list (pystr * json)) : list pystr :=
  match dict_get fields text_key with
  | Some (JStr t) => [t]
  | _ => []
  end.

Lemma extract_text_list items :
  _extract_text (JList items) = flat_map _extract_text items.
Proof.
  simpl. induction items as [|x rest IH]; [reflexivity|].
  simpl. now rewrite IH.
Qed.

Lemma extract_text_dict fields :
  _extract_text (JDict fields)
  = own_text fields ++ flat_map (fun kv => _extract_text (snd kv)) fields.
Proof.
  simpl. unfold own_text. f_equal.
  induction fields as [|[k v] rest IH]; [reflexivity|].
  simpl. now rewrite IH.
Qed.

(** [t] is a string held under a "text" key somewhere in the
    structure. *)
Inductive text_at : json -> pystr -> Prop :=
| text_here fields t :
    dict_get fields text_key = Some (JStr t) -> text_at (JDict fields) t
| text_in_value fields k v t :
    In (k, v) fields -> text_at v t -> text_at (JDict fields) t
| text_in_item items item t :
    In item items -> text_at item t -> text_at (JList items) t.

Lemma extract_text_complete j t : In t (_extract_text j) <-> text_at j t.
Proof.
  revert t. induction j as [| | | |items IH|fields IH]
    using json_nested_ind; intros t;
    try (split; [intros [] | intros H; inversion H]).
  - rewrite extract_text_list, in_flat_map. rewrite Forall_forall in IH.
    split.
    + intros (item & Hin & Ht). eapply text_in_item; [exact Hin|].
      now apply IH.
    + intros H. inversion H as [| |? item ? Hin Ht]; subst.
      exists item. split; [exact Hin|]. now apply IH.
  - rewrite extract_text_dict, in_app_iff, in_flat_map.
    rewrite Forall_forall in IH. split.
    + intros [Hown|((k, v) & Hin & Ht)].
      * apply text_here. unfold own_text in Hown.
        destruct (dict_get fields text_key) as [[]|];
          simpl in Hown; try contradiction.
        destruct Hown as [->|[]]. reflexivity.
      * eapply text_in_value; [exact Hin|]. now apply (IH (k, v)).
    + intros H. inversion H as [? ? Hget|? k v ? Hin Ht|]; subst.
      * left. unfold own_text. rewrite Hget. now left.
      * right. exists (k, v). split; [exact Hin|]. now apply (IH (k, v)).
Qed.

End ExtractFacts.
Import ExtractFacts.

(** The blocks of the specification's example:
    [[{"text": "a"}, {"items": [{"text": "b"}]}]]. *)
Definition example_blocks : json :=
  JList [ JDict [(str "text", JStr (str "a"))];
          JDict [(str "items", JList [JDict [(str "text", JStr (str "b"))]])] ].

(** C7 (as amended). When the raw text is empty once mentions are
    removed and it is stripped, the derived text is the newline-join of
    the strings extracted from the blocks, stripped of leading and
    trailing whitespace; the extraction visits mappings and sequences
    depth-first at any nesting, a mapping giving its own "text" string
    before those of its values, and yields exactly the strings held
    under a "text" key; the blocks [{"text": "a"}, {"items": [{"text":
    "b"}]}] give "a", newline, "b". *)
Theorem fallback_text_from_blocks :
  (forall msg,
     clean_text (text msg) = [] ->
     derive_text msg
     = strip (join [nl]
                (_extract_text
                   (match blocks msg with Some b => b | None => JList [] end))))
  /\ (forall items,
        _extract_text (JList items) = flat_map _extract_text items)
  /\ (forall fields,
        _extract_text (JDict fields)
        = own_text fields
          ++ flat_map (fun kv => _extract_text (snd kv)) fields)
  /\ (forall j t, In t (_extract_text j) <-> text_at j t)
  /\ (forall msg,
        clean_text (text msg) = [] -> blocks msg = Some example_blocks ->
        derive_text msg = str "a" ++ [nl] ++ str "b").
Proof.
  split; [|split; [|split; [|split]]].
  - intros msg H. unfold derive_text. now rewrite H.
  - exact extract_text_list.
  - exact extract_text_dict.
  - exact extract_text_complete.
  - intros msg H Hb. unfold derive_text. rewrite H, Hb. reflexivity.
Qed.

Definition blocks_only_message (b : json) : Message :=
  {| ts := 1 # 1; bot_id := None; subtype := None; text := Some (str "<@UBOT> ");
     blocks := Some b; files := None |}.

Lemma fallback_text_from_blocks_witness :
  derive_text (blocks_only_message example_blocks)
  = str "a" ++ [nl] ++ str "b".
Proof.
  destruct fallback_text_from_blocks as (_ & _ & _ & _ & H).
  apply H; reflexivity.
Defined.

(** A fragment that ends with a space: the derived text is not the
    newline-join of the extracted strings, it is that join stripped. *)
Lemma fallback_text_is_stripped :
  clean_text (text (blocks_only_message
                      (JList [JDict [(str "text", JStr (str "a "))]]))) = []
  /\ join [nl]
       (_extract_text (JList [JDict [(str "text", JStr (str "a "))]]))
     = str "a "
  /\ derive_text (blocks_only_message
                    (JList [JDict [(str "text", JStr (str "a "))]]))
     = str "a"
  /\ derive_text (blocks_only_message
                    (JList [JDict [(str "text", JStr (str "a "))]]))
     <> join [nl]
          (_extract_text (JList [JDict [(str "text", JStr (str "a "))]])).
Proof. repeat split; try reflexivity; discriminate. Qed.

(** ** Scenarios *)

Definition host_png (url : pystr) : get_outcome :=
  Responded {| status_code := 200;
               resp_content := [Byte.x89; Byte.x50; Byte.x4e; Byte.x47];
               resp_text := [] |}.

(** "application/zip" is dropped, "image/png" becomes a binary part. *)
Example zip_dropped_png_fetched :
  files_loop host_png
    [ {| mimetype := Some (str "application/zip");
         url_private_download := Some (str "https://files.slack.com/a.zip") |};
      cat_png ] [] []
  = (Ok [from_bytes [Byte.x89; Byte.x50; Byte.x4e; Byte.x47]
           (str "image/png")],
     [HttpGet (str "https://files.slack.com/cat.png")]).
Proof. reflexivity. Qed.

Definition cat_image : Image :=
  {| format := None; save := fun _ => [Byte.x89; Byte.x50] |}.

Definition gemini_cat (contents : list Content)
  : pystr + GenerateContentResponse :=
  inr {| response_parts :=
           [ {| thought := None; part_text := Some (str "Here:");
                as_image := None |};
             {| thought := None; part_text := None;
                as_image := Some cat_image |} ];
         response_text := Some (str "Here:") |}.

(** One human message "<@BOT> draw a cat" and a model answer made of a
    text and an image: one reply is posted and one file uploaded. *)
Example draw_a_cat :
  handle_mention host_png
    (fun _ _ => Some [user_message (str "<@BOT> draw a cat")])
    gemini_cat mention_event []
  = (Ok tt,
     [ Ack;
       ConversationsReplies (str "C1") (str "1.0");
       GenerateContent
         [{| role := str "user"; parts := [from_text (str "draw a cat")] |}];
       Say (str "Here:") (str "Here:") (str "1.0");
       FilesUpload (str "C1") (str "1.0") (str "gemini-response-1.png")
         (str "Gemini response 1") [Byte.x89; Byte.x50] ]).
Proof. reflexivity. Qed.

(** * Further properties of the assembler *)

Module FetchFacts.

(** A descriptor the loop sends a request for: it has a URL and an
    admitted media type. *)
Definition fetched (f : File) : bool :=
  opt_truthy (url_private_download f) && supported (or_empty (mimetype f)).

Definition fetch_url (f : File) : pystr := or_empty (url_private_download f).

Definition requests (fs : list File) : list event :=
  map (fun f => HttpGet (fetch_url f)) (filter fetched fs).

Section WithHost.

Variable host : pystr -> get_outcome.

(** The part a descriptor contributes when its fetch succeeds. *)
Definition file_part (f : File) : option Part :=
  if fetched f then
    match host (fetch_url f) with
    | Responded r =>
        if is_success r then Some (part_of_response (or_empty (mimetype f)) r)
        else None
    | _ => None
    end
  else None.

(** No request of the descriptor fails. *)
Definition fetch_ok (f : File) : Prop :=
  fetched f = true -> fetch_error host (fetch_url f) = None.

Lemma files_loop_app_ok pre : forall rest parts tr,
  Forall fetch_ok pre ->
  files_loop host (pre ++ rest) parts tr
  = files_loop host rest (parts ++ omap file_part pre) (tr ++ requests pre).
Proof.
  induction pre as [|x pre IH]; intros rest parts tr Hok.
  - simpl. unfold requests. simpl. now rewrite !app_nil_r.
  - inversion Hok as [|? ? Hx Hpre]; subst.
    change ((x :: pre) ++ rest) with (x :: pre ++ rest).
    unfold requests, file_part, fetch_ok, fetched, fetch_url in *.
    cbn [omap filter map].
    destruct (opt_truthy (url_private_download x)) eqn:Hu.
    + destruct (supported (or_empty (mimetype x))) eqn:Hs.
      * cbn [andb] in *. specialize (Hx eq_refl). unfold fetch_error in Hx.
        destruct (host (or_empty (url_private_download x))) as [r| |] eqn:Hr;
          try discriminate.
        destruct (is_success r) eqn:Hsucc; [|discriminate].
        rewrite (files_loop_fetched host x (pre ++ rest) parts tr Hu Hs Hr Hsucc).
        rewrite IH by exact Hpre. cbn [map].
        now rewrite <- !app_assoc.
      * cbn [andb]. rewrite files_loop_unsupported by exact Hs.
        now apply IH.
    + cbn [andb]. rewrite files_loop_no_url by exact Hu. now apply IH.
Qed.

Lemma files_loop_ok fs parts tr :
  Forall fetch_ok fs ->
  files_loop host fs parts tr
  = (Ok (parts ++ omap file_part fs), tr ++ requests fs).
Proof.
  intros Hok. rewrite <- (app_nil_r fs) at 1.
  now rewrite files_loop_app_ok.
Qed.

End WithHost.

End FetchFacts.
Import FetchFacts.

(** X1. Attachments in order. When no request fails, the loop over the
    attachments returns the parts it was given followed by one part per
    fetched descriptor, in the order of the descriptors, and it sends
    exactly one request per descriptor that has a URL and an admitted
    media type, in that order, and none for the others. *)
Theorem attachments_in_order
    (host : pystr -> get_outcome) (fs : list File)
    (parts : list Part) (tr : list event) :
  Forall (fetch_ok host) fs ->
  files_loop host fs parts tr
  = (Ok (parts ++ omap (file_part host) fs), tr ++ requests fs).
Proof. apply files_loop_ok. Qed.

Lemma attachments_in_order_witness :
  files_loop host_ok [note_txt; png_without_url; note_txt] [] []
  = (Ok ([] ++ omap (file_part host_ok)
                 [note_txt; png_without_url; note_txt]),
     [] ++ requests [note_txt; png_without_url; note_txt]).
Proof.
  apply (@attachments_in_order host_ok
           [note_txt; png_without_url; note_txt] [] []).
  repeat constructor; intros _; reflexivity.
Defined.

(** X2. The first failing fetch ends the loop. When the descriptors
    before [f] are fetched without failure and the request for [f]
    fails, the loop raises the exception of that request and its last
    request is the one for [f]: nothing is requested for the
    descriptors after it. *)
Theorem first_failure_stops_requests
    (host : pystr -> get_outcome) (pre post : list File) (f : File)
    (e : exn) (parts : list Part) (tr : list event) :
  Forall (fetch_ok host) pre ->
  fetched f = true ->
  fetch_error host (fetch_url f) = Some e ->
  files_loop host (pre ++ f :: post) parts tr
  = (Raise e, tr ++ requests pre ++ [HttpGet (fetch_url f)]).
Proof.
  intros Hpre Hf He. rewrite files_loop_app_ok by exact Hpre.
  unfold fetched in Hf. apply andb_true_iff in Hf. destruct Hf as [Hu Hs].
  rewrite (files_loop_fetch_fails host f post _ _ Hu Hs He).
  now rewrite <- app_assoc.
Qed.

Lemma first_failure_stops_requests_witness :
  files_loop host_forbidden ([png_without_url] ++ cat_png :: [note_txt]) [] []
  = (Raise (HTTPStatusError 403),
     [] ++ requests [png_without_url] ++ [HttpGet (fetch_url cat_png)]).
Proof.
  apply (@first_failure_stops_requests host_forbidden [png_without_url]
           [note_txt] cat_png (HTTPStatusError 403) [] []).
  - repeat constructor. intros H. discriminate H.
  - reflexivity.
  - reflexivity.
Defined.

(** The descriptors of a message: [msg.get("files", [])]. *)
Definition files_of (msg : Message) : list File :=
  match files msg with Some fs => fs | None => [] end.

(** X3. Text first, then attachments. When no request fails, the parts
    of a message are its derived text, if it is not empty, followed by
    the parts of its fetched attachments in their order; a message whose
    derived text is empty and whose attachments are all passed over has
    no part. *)
Theorem message_text_then_attachments
    (host : pystr -> get_outcome) (msg : Message) (tr : list event) :
  Forall (fetch_ok host) (files_of msg) ->
  message_parts host msg tr
  = (Ok ((if truthy (derive_text msg) then [from_text (derive_text msg)]
          else [])
         ++ omap (file_part host) (files_of msg)),
     tr ++ requests (files_of msg)).
Proof.
  intros Hok. unfold message_parts. fold (files_of msg).
  now apply files_loop_ok.
Qed.

Lemma message_text_then_attachments_witness :
  message_parts host_ok msg_third []
  = (Ok ((if truthy (derive_text msg_third)
          then [from_text (derive_text msg_third)] else [])
         ++ omap (file_part host_ok) (files_of msg_third)),
     [] ++ requests (files_of msg_third)).
Proof.
  apply (@message_text_then_attachments host_ok msg_third []).
  repeat constructor; intros _; reflexivity.
Defined.




Lemma assembly_trace_shape
    (host : pystr -> get_outcome)
    (replies : pystr -> pystr -> option (list Message))
    (channel thread_ts : pystr) (tr : list event) :
  exists gets,
    snd (_build_contents_from_thread host replies channel thread_ts tr)
    = tr ++ ConversationsReplies channel thread_ts :: gets
    /\ Forall is_get gets.
Proof.
  destruct (replies channel thread_ts) as [msgs|] eqn:E.
  - destruct (build_contents_run host replies channel thread_ts tr E)
      as (gets & Hrun & Hg).
    exists gets. split; [|exact Hg]. now rewrite Hrun.
  - exists []. split; [|constructor].
    unfold _build_contents_from_thread, bind, emit, raise.
    now rewrite E.
Qed.

(** X5. What the assembly does outside. [_build_contents_from_thread]
    first asks for the thread; if that call raises, it raises
    [SlackApiError] and does nothing else; otherwise every further
    outgoing call is an attachment request: it never calls the model and
    never posts or uploads. *)
Theorem assembly_only_reads
    (host : pystr -> get_outcome)
    (replies : pystr -> pystr -> option (list Message))
    (channel thread_ts : pystr) (tr : list event) :
  (replies channel thread_ts = None ->
   _build_contents_from_thread host replies channel thread_ts tr
   = (Raise SlackApiError, tr ++ [ConversationsReplies channel thread_ts]))
  /\ exists gets,
       snd (_build_contents_from_thread host replies channel thread_ts tr)
       = tr ++ ConversationsReplies channel thread_ts :: gets
       /\ Forall is_get gets.
Proof.
  split.
  - intros E. unfold _build_contents_from_thread, bind, emit, raise.
    now rewrite E.
  - apply assembly_trace_shape.
Qed.

Lemma assembly_only_reads_witness :
  _build_contents_from_thread host_ok (fun _ _ => None)
    (str "C1") (str "1.0") []
  = (Raise SlackApiError, [] ++ [ConversationsReplies (str "C1") (str "1.0")]).
Proof.
  destruct (@assembly_only_reads host_ok (fun _ _ => None)
              (str "C1") (str "1.0") []) as (H & _).
  apply H. reflexivity.
Defined.

Module OrderFacts.

Lemma filter_at_ts_nil q l :
  Forall (fun x => ~ (ts x == q)%Q) l -> filter (at_ts q) l = [].
Proof.
  induction 1 as [|x rest Hx _ IH]; simpl; [reflexivity|].
  unfold at_ts at 1. destruct (Qeq_bool (ts x) q) eqn:E; [|exact IH].
  apply Qeq_bool_iff in E. contradiction.
Qed.

(** With distinct timestamps at most one message has a given one. *)
Lemma distinct_ts_filter q l :
  distinct_ts l -> length (filter (at_ts q) l) <= 1.
Proof.
  induction 1 as [|a rest Ha _ IH]; simpl; [lia|].
  unfold at_ts at 1. destruct (Qeq_bool (ts a) q) eqn:E; [|exact IH].
  apply Qeq_bool_iff in E. rewrite filter_at_ts_nil; [simpl; lia|].
  eapply Forall_impl; [|exact Ha]. intros x Hx Hq. apply Hx.
  now rewrite E, Hq.
Qed.

Lemma Permutation_filter_at_ts q l1 l2 :
  Permutation l1 l2 ->
  Permutation (filter (at_ts q) l1) (filter (at_ts q) l2).
Proof.
  induction 1 as [|x l l' _ IH|x y l|l l' l'' _ IH1 _ IH2]; simpl.
  - constructor.
  - destruct (at_ts q x); [now constructor | exact IH].
  - destruct (at_ts q x), (at_ts q y); try reflexivity. apply perm_swap.
  - now transitivity (filter (at_ts q) l').
Qed.

Lemma short_permutation_eq (l1 l2 : list Message) :
  Permutation l1 l2 -> length l1 <= 1 -> l1 = l2.
Proof.
  intros Hp Hlen. destruct l1 as [|a [|b l1]]; simpl in Hlen; [| |lia].
  - now apply Permutation_nil in Hp.
  - now apply Permutation_length_1_inv in Hp.
Qed.

Lemma sorted_by_ts_permutation l1 l2 :
  Permutation l1 l2 -> distinct_ts l1 -> sorted_by_ts l1 = sorted_by_ts l2.
Proof.
  intros Hp Hd. apply stable_sorted_unique; try apply sorted_by_ts_sorted.
  intros q. rewrite !sorted_by_ts_stable.
  apply short_permutation_eq.
  - now apply Permutation_filter_at_ts.
  - now apply distinct_ts_filter.
Qed.

Lemma sorted_by_ts_of_sorted l :
  StronglySorted ts_le l -> sorted_by_ts l = l.
Proof.
  intros Hs. apply stable_sorted_unique; [apply sorted_by_ts_sorted | exact Hs |].
  intros q. apply sorted_by_ts_stable.
Qed.

End OrderFacts.
Import OrderFacts.

(** X6. The fetch order does not matter. When the timestamps of the
    messages are pairwise different, the assembly of the messages in any
    other order gives the same result and sends the same requests in the
    same order. *)
Theorem assemble_any_fetch_order
    (host : pystr -> get_outcome) (msgs msgs' : list Message)
    (tr : list event) :
  Permutation msgs msgs' -> distinct_ts msgs ->
  assemble host msgs' tr = assemble host msgs tr.
Proof.
  intros Hp Hd. unfold assemble.
  now rewrite (sorted_by_ts_permutation Hp Hd).
Qed.

Lemma assemble_any_fetch_order_witness :
  assemble host_ok [msg_first; msg_second] []
  = assemble host_ok [msg_second; msg_first] [].
Proof.
  apply (@assemble_any_fetch_order host_ok
           [msg_second; msg_first] [msg_first; msg_second] []).
  - apply perm_swap.
  - repeat constructor. intros H. discriminate H.
Defined.

(** X7. A thread already in order. When the messages come in ascending
    timestamp order (equal timestamps allowed), sorting leaves them as
    they are, so the turns follow the fetch order. *)
Theorem sorted_thread_unchanged
    (host : pystr -> get_outcome) (msgs : list Message) (tr : list event) :
  StronglySorted ts_le msgs ->
  sorted_by_ts msgs = msgs
  /\ fst (assemble host msgs tr)
     = match first_error host msgs with
       | Some e => Raise e
       | None =>
           Ok (match omap (turn_of host) msgs with
               | [] => placeholder
               | turns => turns
               end)
       end.
Proof.
  intros Hs. split; [now apply sorted_by_ts_of_sorted|].
  rewrite assemble_fst. unfold turns_or_placeholder.
  now rewrite sorted_by_ts_of_sorted.
Qed.

Lemma sorted_thread_unchanged_witness :
  sorted_by_ts [msg_first; msg_second; msg_third]
  = [msg_first; msg_second; msg_third].
Proof.
  apply (@sorted_thread_unchanged host_ok
           [msg_first; msg_second; msg_third] []).
  repeat constructor; unfold ts_le; simpl; discriminate.
Defined.

(** * Further properties of the text derivation *)

Module StripFacts.

Lemma drop_while_head p s :
  match drop_while p s with c :: _ => p c = false | [] => True end.
Proof.
  induction s as [|c t IH]; simpl; [exact I|].
  destruct (p c) eqn:E; [exact IH | exact E].
Qed.

Lemma drop_while_suffix p s : exists pre, s = pre ++ drop_while p s.
Proof.
  induction s as [|c t [pre IH]]; simpl; [now exists []|].
  destruct (p c); [|now exists []].
  exists (c :: pre). simpl. now f_equal.
Qed.

Lemma strip_has_no_outer_space s : no_outer_space (strip s).
Proof.
  unfold no_outer_space, strip, lstrip, rstrip.
  set (x := drop_while is_space s).
  pose proof (drop_while_head is_space s) as Hx. fold x in Hx.
  pose proof (drop_while_head is_space (rev x)) as Hy.
  destruct (drop_while_suffix is_space (rev x)) as [pre Epre].
  set (y := drop_while is_space (rev x)) in *.
  split.
  - assert (Ex : x = rev y ++ rev pre).
    { rewrite <- (rev_involutive x), Epre. apply rev_app_distr. }
    destruct (rev y) as [|c t]; [exact I|].
    rewrite Ex in Hx. exact Hx.
  - rewrite rev_involutive. exact Hy.
Qed.

End StripFacts.
Import StripFacts.

(** X8. No blank text part. The derived text of a message never begins
    or ends with whitespace, whichever of the raw text and the blocks it
    comes from.  The attachment loop of a message starts from no part
    when the derived text is empty, and from the one text part holding
    the derived text otherwise, which then begins with a character that
    is not whitespace; the loop only appends to these parts, so the
    parts of a message hold no empty and no whitespace-only part made
    from the message's own text. *)
Theorem derived_text_is_stripped (msg : Message) :
  no_outer_space (derive_text msg)
  /\ forall host tr,
       exists initial,
         message_parts host msg tr
         = files_loop host (files_of msg) initial tr
         /\ match derive_text msg with
            | [] => initial = []
            | c :: t => initial = [from_text (c :: t)] /\ is_space c = false
            end
         /\ forall ps,
              fst (message_parts host msg tr) = Ok ps ->
              exists more, ps = initial ++ more.
Proof.
  assert (H : no_outer_space (derive_text msg)).
  { unfold derive_text, clean_text.
    destruct (truthy (strip (sub_mentions (or_empty (text msg)))));
      apply strip_has_no_outer_space. }
  split; [exact H|]. intros host tr.
  exists (if truthy (derive_text msg) then [from_text (derive_text msg)]
          else []).
  split; [reflexivity|]. split.
  - destruct H as [Hhead _].
    destruct (derive_text msg) as [|c t]; [reflexivity|].
    now split.
  - intros ps Hps. unfold message_parts in Hps. fold (files_of msg) in Hps.
    eapply files_loop_extends. exact Hps.
Qed.

Lemma derived_text_is_stripped_witness :
  exists initial,
    message_parts host_ok msg_third []
    = files_loop host_ok (files_of msg_third) initial []
    /\ initial = [from_text (str "third")]
    /\ exists more,
         [from_text (str "third"); from_text (str "hi")] = initial ++ more.
Proof.
  destruct (derived_text_is_stripped msg_third) as (_ & H).
  destruct (H host_ok []) as (initial & E & Hinit & Hext).
  exists initial. split; [exact E|]. split.
  - apply Hinit.
  - apply Hext. reflexivity.
Defined.

(** * Further properties of rendering and delivery *)

Module ReplyFacts.

Lemma join_not_nil sep x rest : x <> [] -> join sep (x :: rest) <> [].
Proof.
  intros Hx. destruct x as [|c t]; [congruence|].
  destruct rest; simpl; discriminate.
Qed.

Lemma visible_text_not_nil part t : visible_text part = Some t -> t <> [].
Proof.
  unfold visible_text, opt_truthy.
  destruct (is_thought part); [discriminate|].
  destruct (part_text part) as [[|c s]|]; simpl; try discriminate.
  now intros [= <-].
Qed.

Lemma omap_visible_text_in ps part :
  In part ps -> is_thought part = false ->
  opt_truthy (part_text part) = true ->
  omap visible_text ps <> [].
Proof.
  intros Hin Hth Htx. induction ps as [|p rest IH]; [destruct Hin|].
  simpl. destruct Hin as [->|Hin].
  - unfold visible_text. rewrite Hth, Htx.
    unfold opt_truthy in Htx. destruct (part_text part); [|discriminate].
    discriminate.
  - destruct (visible_text p); [discriminate | now apply IH].
Qed.

Lemma omap_visible_text_head ps t ts :
  omap visible_text ps = t :: ts -> t <> [].
Proof.
  induction ps as [|p rest IH]; simpl; [discriminate|].
  destruct (visible_text p) eqn:Ep; [|exact IH].
  intros [= -> _]. eapply visible_text_not_nil. exact Ep.
Qed.

Lemma chunks_of_bounded (text : pystr) n :
  Forall (fun c => length c <= n) (chunks_of text n).
Proof.
  unfold chunks_of. apply Forall_forall. intros c Hc.
  apply in_map_iff in Hc. destruct Hc as (i & <- & _).
  unfold chunk, slice. rewrite length_firstn. lia.
Qed.

(** The chunks of a non-empty text are kept by the substitution. *)
Lemma substitute_nonempty_text (text : pystr) reply_images n :
  0 < n -> text <> [] ->
  substitute_empty (chunks_of text n) reply_images = chunks_of text n
  /\ chunks_of text n <> [].
Proof.
  intros Hn Hne.
  pose proof (chunks_of_nonempty Hn Hne) as Hall.
  pose proof (chunks_of_concat text Hn) as Hcat.
  destruct (chunks_of text n) as [|c cs].
  - simpl in Hcat. congruence.
  - split; [|discriminate].
    unfold substitute_empty. inversion Hall as [|? ? Hc _]; subst.
    simpl. destruct c; [congruence | reflexivity].
Qed.

End ReplyFacts.
Import ReplyFacts.

(** X9. What is posted. Whatever the reply text and images, delivery
    does not raise: it posts at least one message, none of them empty
    and none longer than 3000 characters, and then uploads one file per
    image; when the reply text is not empty the posted messages are its
    chunks, so that put end to end they are the reply text. *)
Theorem deliver_posts_reply
    (reply_text : pystr) (reply_images : list bytes)
    (channel thread_ts : pystr) (tr : list event) :
  exists chunks,
    deliver reply_text reply_images channel thread_ts tr
    = (Ok tt,
       tr ++ say_events chunks thread_ts
          ++ upload_events reply_images 1 channel thread_ts)
    /\ chunks <> []
    /\ Forall (fun c => c <> [] /\ length c <= 3000) chunks
    /\ match reply_text with
       | [] => True
       | _ :: _ => concat chunks = reply_text
       end.
Proof.
  destruct reply_text as [|c0 t0].
  - exists (substitute_empty [[]] reply_images).
    split; [now apply deliver_run|].
    unfold substitute_empty. simpl.
    destruct reply_images; (split; [discriminate|]);
      (split; [|exact I]);
      (apply Forall_cons; [|apply Forall_nil]);
      (split; [discriminate | apply Nat.leb_le; reflexivity]).
  - set (text := c0 :: t0).
    assert (Hne : text <> []) by discriminate.
    assert (Hn : 0 < Z.to_nat default_limit) by (unfold default_limit; lia).
    assert (E : _split_text text default_limit
                = Some (chunks_of text (Z.to_nat default_limit))).
    { now rewrite (@split_text_positive text default_limit eq_refl). }
    destruct (substitute_nonempty_text reply_images Hn Hne) as (Hsub & Hnil).
    exists (chunks_of text (Z.to_nat default_limit)). split.
    { rewrite (@deliver_run _ _ _ _ _ _ E). now rewrite Hsub. }
    split; [exact Hnil|]. split.
    + pose proof (chunks_of_nonempty Hn Hne) as Hall.
      pose proof (chunks_of_bounded text (Z.to_nat default_limit)) as Hlen.
      apply Forall_forall. intros c Hc. rewrite Forall_forall in Hall, Hlen.
      split; [now apply Hall | now apply Hlen].
    + now apply chunks_of_concat.
Qed.

Module UploadFacts.

Lemma str_inj (a b : String.string) : str a = str b -> a = b.
Proof.
  unfold str. intros H.
  rewrite <- (String.string_of_list_ascii_of_string a).
  rewrite <- (String.string_of_list_ascii_of_string b).
  f_equal. revert H.
  generalize (String.list_ascii_of_string a) as la.
  generalize (String.list_ascii_of_string b) as lb.
  intros lb la. revert lb.
  induction la as [|x la IH]; intros [|y lb]; simpl; try discriminate;
    [reflexivity|].
  intros [= Hxy Hrest]. f_equal; [|now apply IH].
  rewrite <- (Ascii.ascii_N_embedding x), <- (Ascii.ascii_N_embedding y).
  now rewrite Hxy.
Qed.

Lemma str_of_nat_inj (m n : nat) : str_of_nat m = str_of_nat n -> m = n.
Proof.
  unfold str_of_nat. intros H. apply str_inj in H.
  apply DecimalNat.Unsigned.to_uint_inj.
  assert (E : Some (Nat.to_uint m) = Some (Nat.to_uint n)).
  { rewrite <- !DecimalString.NilEmpty.usu. now rewrite H. }
  now injection E.
Qed.

(** The file name of the upload of index [k] (line 195). *)
Definition upload_name (k : nat) : pystr :=
  str "gemini-response-" ++ str_of_nat k ++ str ".png".

Lemma upload_name_inj (m n : nat) : upload_name m = upload_name n -> m = n.
Proof.
  unfold upload_name. intros H.
  apply app_inv_head, app_inv_tail in H. now apply str_of_nat_inj.
Qed.

(** [enumerate(reply_images, start=idx)] *)
Definition enumerate (A : Type) (l : list A) (start : nat) : list (nat * A) :=
  combine (seq start (length l)) l.

Lemma upload_events_enumerate images : forall idx channel thread_ts,
  upload_events images idx channel thread_ts
  = map (fun p => FilesUpload channel thread_ts (upload_name (fst p))
                    (str "Gemini response " ++ str_of_nat (fst p)) (snd p))
        (enumerate images idx).
Proof.
  unfold enumerate.
  induction images as [|image rest IH]; intros idx channel thread_ts;
    [reflexivity|].
  simpl. now rewrite IH.
Qed.

Lemma enumerate_fst (A : Type) (l : list A) : forall start,
  map fst (enumerate l start) = seq start (length l).
Proof.
  unfold enumerate. induction l as [|x rest IH]; intros start;
    [reflexivity|].
  simpl. now rewrite IH.
Qed.

Lemma enumerate_snd (A : Type) (l : list A) : forall start,
  map snd (enumerate l start) = l.
Proof.
  unfold enumerate. induction l as [|x rest IH]; intros start;
    [reflexivity|].
  simpl. now rewrite IH.
Qed.

Lemma NoDup_map_injective (A B : Type) (f : A -> B) (l : list A) :
  (forall x y, f x = f y -> x = y) -> NoDup l -> NoDup (map f l).
Proof.
  intros Hinj. induction 1 as [|x rest Hx _ IH]; simpl; constructor;
    [|exact IH].
  intros Hin. apply in_map_iff in Hin. destruct Hin as (y & Hy & Hin).
  apply Hinj in Hy. now subst y.
Qed.

End UploadFacts.
Import UploadFacts.

(** X10. Numbered uploads. The images are uploaded one by one in their
    order, never raising; the k-th image (counting from 1 when the
    handler calls it) goes to the given channel and thread under the
    name "gemini-response-k.png" and the title "Gemini response k", and
    two uploads of one reply never share a file name. *)
Theorem uploads_numbered
    (images : list bytes) (idx : nat) (channel thread_ts : pystr)
    (tr : list event) :
  upload_each images idx channel thread_ts tr
  = (Ok tt,
     tr ++ map (fun p => FilesUpload channel thread_ts
                           (str "gemini-response-" ++ str_of_nat (fst p)
                              ++ str ".png")
                           (str "Gemini response " ++ str_of_nat (fst p))
                           (snd p))
               (enumerate images idx))
  /\ map fst (enumerate images idx) = seq idx (length images)
  /\ map snd (enumerate images idx) = images
  /\ NoDup (map (fun p => str "gemini-response-" ++ str_of_nat (fst p)
                            ++ str ".png")
                (enumerate images idx)).
Proof.
  split; [|split; [|split]].
  - rewrite upload_each_run. f_equal. f_equal.
    apply upload_events_enumerate.
  - apply enumerate_fst.
  - apply enumerate_snd.
  - pose proof (enumerate_fst images idx) as Hfst.
    change (fun p : nat * bytes =>
              str "gemini-response-" ++ str_of_nat (fst p) ++ str ".png")
      with (fun p : nat * bytes => upload_name (fst p)).
    rewrite <- (map_map fst upload_name), Hfst.
    apply NoDup_map_injective; [|apply seq_NoDup].
    intros m n. apply upload_name_inj.
Qed.

(** X11. A text segment wins over the fallback. When the response has a
    segment that is not a thought and has a non-empty text, the combined
    text is the blank-line join of the texts of such segments, it is not
    empty, and the response's own [text] attribute plays no part in the
    result. *)
Theorem text_segment_beats_fallback
    (response : GenerateContentResponse) (part : ResponsePart) :
  In part (response_parts response) ->
  is_thought part = false ->
  opt_truthy (part_text part) = true ->
  fst (_format_model_response response)
  = join [nl; nl] (omap visible_text (response_parts response))
  /\ fst (_format_model_response response) <> []
  /\ forall fallback,
       _format_model_response
         {| response_parts := response_parts response;
            response_text := fallback |}
       = _format_model_response response.
Proof.
  intros Hin Hth Htx.
  pose proof (omap_visible_text_in _ _ Hin Hth Htx) as Hne.
  rewrite format_model_response_eq. cbn [fst].
  destruct (omap visible_text (response_parts response)) as [|t ts] eqn:E;
    [congruence|].
  split; [reflexivity|]. split.
  - apply join_not_nil. eapply omap_visible_text_head. exact E.
  - intros fallback. rewrite !format_model_response_eq. cbn [response_parts].
    now rewrite E.
Qed.

Lemma text_segment_beats_fallback_witness :
  fst (_format_model_response
         {| response_parts :=
              [ {| thought := Some true; part_text := Some (str "plan");
                   as_image := None |};
                {| thought := None; part_text := Some (str "Here:");
                   as_image := None |} ];
            response_text := Some (str "planHere:") |})
  <> [].
Proof.
  apply (@text_segment_beats_fallback
           {| response_parts :=
                [ {| thought := Some true; part_text := Some (str "plan");
                     as_image := None |};
                  {| thought := None; part_text := Some (str "Here:");
                     as_image := None |} ];
              response_text := Some (str "planHere:") |}
           {| thought := None; part_text := Some (str "Here:");
              as_image := None |}).
  - right. now left.
  - reflexivity.
  - reflexivity.
Defined.

(** * Further properties of the handler *)

Module HandleFacts.

(** The chunks that are posted for a reply (lines 175-177). *)
Definition final_chunks (reply_text : pystr) (reply_images : list bytes)
  : list pystr :=
  substitute_empty
    (match _split_text reply_text default_limit with
     | Some chunks => chunks
     | None => []
     end)
    reply_images.

Lemma deliver_eq reply_text reply_images channel thread_ts tr :
  deliver reply_text reply_images channel thread_ts tr
  = (Ok tt,
     tr ++ say_events (final_chunks reply_text reply_images) thread_ts
        ++ upload_events reply_images 1 channel thread_ts).
Proof.
  destruct (split_default_total reply_text) as (chunks & E).
  unfold final_chunks. rewrite E. now apply deliver_run.
Qed.

(** An event that, if it posts or uploads, does so in the given channel
    and thread. *)
Definition addressed (channel thread_ts : pystr) (e : event) : Prop :=
  match e with
  | Say _ _ t => t = thread_ts
  | FilesUpload c t _ _ _ => c = channel /\ t = thread_ts
  | _ => True
  end.

Lemma is_get_addressed channel thread_ts gets :
  Forall is_get gets -> Forall (addressed channel thread_ts) gets.
Proof.
  apply Forall_impl. intros e He. now destruct e.
Qed.

Lemma say_events_addressed channel thread_ts chunks :
  Forall (addressed channel thread_ts) (say_events chunks thread_ts).
Proof.
  unfold say_events. apply Forall_forall. intros e He.
  apply in_map_iff in He. destruct He as (c & <- & _). reflexivity.
Qed.

Lemma upload_events_addressed channel thread_ts images : forall idx,
  Forall (addressed channel thread_ts)
    (upload_events images idx channel thread_ts).
Proof.
  induction images as [|image rest IH]; intros idx; simpl; constructor.
  - now split.
  - apply IH.
Qed.

Section WithCollaborators.

Variable host : pystr -> get_outcome.
Variable replies : pystr -> pystr -> option (list Message).
Variable call_gemini : list Content -> pystr + GenerateContentResponse.

(** The reply of lines 168-174 for the assembled contents. *)
Definition reply_of (contents : list Content) : pystr * list bytes :=
  match call_gemini contents with
  | inr gemini_response => _format_model_response gemini_response
  | inl e => (str "Error from Gemini: " ++ e, [])
  end.

Definition log_of (contents : list Content) : list event :=
  match call_gemini contents with
  | inr _ => []
  | inl _ => [LogException (str "Gemini call failed")]
  end.

Lemma invoke_and_render_run contents tr :
  invoke_and_render call_gemini contents tr
  = (Ok (reply_of contents),
     tr ++ [GenerateContent contents] ++ log_of contents).
Proof.
  unfold invoke_and_render, reply_of, log_of, bind, emit, ret.
  destruct (call_gemini contents); simpl.
  - now rewrite <- app_assoc.
  - reflexivity.
Qed.

(** The run of the handler after the acknowledgement, given the outcome
    of the assembly. *)
Lemma handle_mention_after_build ev tr :
  handle_mention host replies call_gemini ev tr
  = match _build_contents_from_thread host replies (channel ev)
            (reply_thread ev) (tr ++ [Ack]) with
    | (Raise e, tr') => (Raise e, tr')
    | (Ok contents, tr') =>
        (Ok tt,
         tr' ++ [GenerateContent contents] ++ log_of contents
             ++ say_events (final_chunks (fst (reply_of contents))
                              (snd (reply_of contents)))
                  (reply_thread ev)
             ++ upload_events (snd (reply_of contents)) 1 (channel ev)
                  (reply_thread ev))
    end.
Proof.
  unfold handle_mention, bind, emit. fold (reply_thread ev).
  destruct (_build_contents_from_thread host replies (channel ev)
              (reply_thread ev) (tr ++ [Ack])) as [[contents|e] tr'];
    [|reflexivity].
  rewrite invoke_and_render_run, deliver_eq.
  now rewrite <- !app_assoc.
Qed.

End WithCollaborators.

End HandleFacts.
Import HandleFacts.

(** X12. Acknowledgement first. Whatever the thread, the attachment host
    and the model do, the first thing the handler does is to acknowledge
    the event. *)
Theorem ack_comes_first
    (host : pystr -> get_outcome)
    (replies : pystr -> pystr -> option (list Message))
    (call_gemini : list Content -> pystr + GenerateContentResponse)
    (ev : SlackEvent) (tr : list event) :
  exists rest,
    snd (handle_mention host replies call_gemini ev tr) = tr ++ Ack :: rest.
Proof.
  rewrite handle_mention_after_build.
  destruct (@assembly_trace_shape host replies (channel ev) (reply_thread ev)
              (tr ++ [Ack])) as (gets & E & _).
  destruct (_build_contents_from_thread host replies (channel ev)
              (reply_thread ev) (tr ++ [Ack])) as [[contents|e] tr'];
    simpl in E; subst tr'; cbn [snd]; rewrite <- !app_assoc;
    eexists; reflexivity.
Qed.

(** X13. Replies stay in the thread. Every message the handler posts goes
    to the thread of the event (its [thread_ts] if it has a non-empty
    one, its own [ts] otherwise), and every file it uploads goes to the
    channel of the event and to that thread. *)
Theorem replies_stay_in_thread
    (host : pystr -> get_outcome)
    (replies : pystr -> pystr -> option (list Message))
    (call_gemini : list Content -> pystr + GenerateContentResponse)
    (ev : SlackEvent) (tr : list event) :
  exists new,
    snd (handle_mention host replies call_gemini ev tr) = tr ++ new
    /\ Forall (addressed (channel ev)
                 (if opt_truthy (thread_ts ev) then or_empty (thread_ts ev)
                  else event_ts ev))
         new.
Proof.
  fold (reply_thread ev). rewrite handle_mention_after_build.
  destruct (@assembly_trace_shape host replies (channel ev) (reply_thread ev)
              (tr ++ [Ack])) as (gets & E & Hg).
  apply (is_get_addressed (channel ev) (reply_thread ev)) in Hg.
  destruct (_build_contents_from_thread host replies (channel ev)
              (reply_thread ev) (tr ++ [Ack])) as [[contents|e] tr'];
    simpl in E; subst tr'; cbn [snd]; rewrite <- !app_assoc;
    eexists; (split; [reflexivity|]).
  - assert (Hlog : Forall (addressed (channel ev) (reply_thread ev))
                     (log_of call_gemini contents)).
    { unfold log_of. destruct (call_gemini contents); repeat constructor. }
    pose proof (say_events_addressed (channel ev) (reply_thread ev)
                  (final_chunks (fst (reply_of call_gemini contents))
                     (snd (reply_of call_gemini contents)))) as Hsay.
    pose proof (upload_events_addressed (channel ev) (reply_thread ev)
                  (snd (reply_of call_gemini contents)) 1) as Hup.
    repeat (rewrite Forall_app || rewrite Forall_cons_iff).
    repeat split; try exact I; try assumption; constructor.
  - repeat (rewrite Forall_app || rewrite Forall_cons_iff).
    repeat split; try exact I; try assumption; constructor.
Qed.

(** X14. One model call, after the fetches and before the reply. When the
    assembly returns turns, the handler does not raise: after the
    acknowledgement, the thread request and the attachment requests it
    calls the model once, with those turns, logs a failed call, posts
    the chunks of the reply and then uploads its images. *)
Theorem model_called_once
    (host : pystr -> get_outcome)
    (replies : pystr -> pystr -> option (list Message))
    (call_gemini : list Content -> pystr + GenerateContentResponse)
    (ev : SlackEvent) (tr : list event) (contents : list Content) :
  fst (_build_contents_from_thread host replies (channel ev)
         (reply_thread ev) (tr ++ [Ack]))
  = Ok contents ->
  exists gets,
    Forall is_get gets
    /\ handle_mention host replies call_gemini ev tr
       = (Ok tt,
          tr ++ [Ack; ConversationsReplies (channel ev) (reply_thread ev)]
             ++ gets
             ++ [GenerateContent contents]
             ++ log_of call_gemini contents
             ++ say_events
                  (final_chunks (fst (reply_of call_gemini contents))
                     (snd (reply_of call_gemini contents)))
                  (reply_thread ev)
             ++ upload_events (snd (reply_of call_gemini contents)) 1
                  (channel ev) (reply_thread ev)).
Proof.
  intros Hok. rewrite handle_mention_after_build.
  destruct (@assembly_trace_shape host replies (channel ev) (reply_thread ev)
              (tr ++ [Ack])) as (gets & E & Hg).
  exists gets. split; [exact Hg|].
  destruct (_build_contents_from_thread host replies (channel ev)
              (reply_thread ev) (tr ++ [Ack])) as [[c|e] tr'];
    simpl in E, Hok; [|discriminate].
  injection Hok as ->. subst tr'. now rewrite <- !app_assoc.
Qed.

Lemma model_called_once_witness :
  exists gets,
    Forall is_get gets
    /\ handle_mention host_png
         (fun _ _ => Some [user_message (str "<@BOT> draw a cat")])
         gemini_cat mention_event []
       = (Ok tt,
          [] ++ [Ack; ConversationsReplies (channel mention_event)
                        (reply_thread mention_event)]
             ++ gets
             ++ [GenerateContent
                   [{| role := str "user";
                       parts := [from_text (str "draw a cat")] |}]]
             ++ log_of gemini_cat
                  [{| role := str "user";
                      parts := [from_text (str "draw a cat")] |}]
             ++ say_events
                  (final_chunks
                     (fst (reply_of gemini_cat
                             [{| role := str "user";
                                 parts := [from_text (str "draw a cat")] |}]))
                     (snd (reply_of gemini_cat
                             [{| role := str "user";
                                 parts := [from_text (str "draw a cat")] |}])))
                  (reply_thread mention_event)
             ++ upload_events
                  (snd (reply_of gemini_cat
                          [{| role := str "user";
                              parts := [from_text (str "draw a cat")] |}]))
                  1 (channel mention_event) (reply_thread mention_event)).
Proof.
  apply (@model_called_once host_png
           (fun _ _ => Some [user_message (str "<@BOT> draw a cat")])
           gemini_cat mention_event []).
  reflexivity.
Defined.

(** * The events endpoint: [slack_events] *)

Module Endpoint.

(** [bool(v)] for a value of [json.loads]. *)
Definition json_truthy (v : json) : bool :=
  match v with
  | JNull => false
  | JBool b => b
  | JNum z => negb (z =? 0)%Z
  | JStr s => truthy s
  | JList items => match items with [] => false | _ :: _ => true end
  | JDict fields => match fields with [] => false | _ :: _ => true end
  end.

(** The request, as the endpoint reads it: the [x-slack-retry-num]
    header, and the value [json.loads] gives for the body ([None] when
    it raises). *)
Record Request := {
  x_slack_retry_num : option pystr;
  body : option json
}.

(** What the endpoint returns: a [JSONResponse], the result of
    [handler.handle(req)], or an exception. *)
Inductive outcome :=
| Respond (status : Z) (content : list (pystr * json))
| Handled
| JSONDecodeError
| AttributeError.

Section WithConfiguration.

(** [ALLOWED_SLACK_WORKSPACE = os.environ.get(...)]. *)
Variable ALLOWED_SLACK_WORKSPACE : option pystr.

(** [str(v)] for a number, a list or a mapping, as the f-string of line
    215 needs it. *)
Variable str_other : json -> pystr.

(** [f"{team_id}"] for [team_id = data.get("team_id")]. *)
Definition format_team_id (team_id : option json) : pystr :=
  match team_id with
  | None | Some JNull => str "None"
  | Some (JStr s) => s
  | Some (JBool true) => str "True"
  | Some (JBool false) => str "False"
  | Some v => str_other v
  end.

(** [team_id != ALLOWED_SLACK_WORKSPACE] for a string on the right. *)
Definition team_differs (team_id : option json) (allowed : pystr) : bool :=
  match team_id with
  | Some (JStr s) => negb (PyStr.eqb s allowed)
  | _ => true
  end.

(** Lines 213-216. *)
Definition workspace_gate (data : list (pystr * json)) : outcome :=
  let team_id := dict_get data (str "team_id") in
  if opt_truthy ALLOWED_SLACK_WORKSPACE
     && team_differs team_id (or_empty ALLOWED_SLACK_WORKSPACE)
  then Respond 403
         [(str "error",
           JStr (format_team_id team_id ++ str ":workspace_not_allowed"))]
  else Handled.

(** Lines 202-216. *)
Definition slack_events (req : Request) : outcome :=
  match x_slack_retry_num req with
  | Some _ =>
      Respond 404 [(str "error", JStr (str "ignored_slack_retry"))]
  | None =>
      match body req with
      | None => JSONDecodeError
      | Some (JDict data) =>
          match dict_get data (str "challenge") with
          | Some challenge =>
              if json_truthy challenge
              then Respond 200 [(str "challenge", challenge)]
              else workspace_gate data
          | None => workspace_gate data
          end
      | Some _ => AttributeError
      end
  end.

End WithConfiguration.

(** The body carries no challenge to echo. *)
Definition no_challenge (data : list (pystr * json)) : Prop :=
  match dict_get data (str "challenge") with
  | Some challenge => json_truthy challenge = false
  | None => True
  end.

Lemma workspace_gate_handled allowed str_other data :
  workspace_gate allowed str_other data = Handled
  <-> (or_empty allowed = []
       \/ dict_get data (str "team_id") = Some (JStr (or_empty allowed))).
Proof.
  unfold workspace_gate, opt_truthy, team_differs.
  destruct (or_empty allowed) as [|c t] eqn:Ea; simpl.
  - split; [now left | reflexivity].
  - destruct (dict_get data (str "team_id")) as [[| | |s| |]|]; simpl;
      try (split; [discriminate | intros [H|H]; discriminate]).
    destruct (PyStr.eqb s (c :: t)) eqn:E; simpl.
    + apply eqb_true_iff in E. subst s. split; [now right | reflexivity].
    + split; [discriminate|]. intros [H|H]; [discriminate|].
      injection H as ->.
      assert (PyStr.eqb (c :: t) (c :: t) = true) by now apply eqb_true_iff.
      congruence.
Qed.

End Endpoint.
Import Endpoint.

(** X15. The gate of the endpoint. A request reaches the Slack handler
    exactly when it carries no retry header, its body is a JSON object
    without a challenge to echo, and either no workspace is configured
    (unset or empty) or the body's [team_id] is the configured workspace
    as a string; so a retried request, a foreign workspace and a body
    without [team_id] under a configured workspace are never handled. *)
Theorem events_reach_handler
    (allowed : option pystr) (str_other : json -> pystr) (req : Request) :
  slack_events allowed str_other req = Handled
  <-> (x_slack_retry_num req = None
       /\ exists data,
            body req = Some (JDict data)
            /\ no_challenge data
            /\ (or_empty allowed = []
                \/ dict_get data (str "team_id")
                   = Some (JStr (or_empty allowed)))).
Proof.
  unfold slack_events, no_challenge.
  destruct (x_slack_retry_num req) as [r|].
  { split; [discriminate | intros [H _]; discriminate]. }
  destruct (body req) as [[| | | | |data]|];
    try (split; [discriminate | intros (_ & d & H & _); discriminate]).
  destruct (dict_get data (str "challenge")) as [c|] eqn:Ec.
  - destruct (json_truthy c) eqn:Et.
    + split; [discriminate|].
      intros (_ & d & [= <-] & Hc & _). rewrite Ec in Hc. congruence.
    + rewrite workspace_gate_handled. split.
      * intros H. split; [reflexivity|]. exists data.
        split; [reflexivity|]. rewrite Ec. now split.
      * intros (_ & d & [= <-] & _ & H). exact H.
  - rewrite workspace_gate_handled. split.
    + intros H. split; [reflexivity|]. exists data.
      split; [reflexivity|]. rewrite Ec. now split.
    + intros (_ & d & [= <-] & _ & H). exact H.
Qed.

(** X16. Answers that do not depend on the workspace. A request with a
    retry header gets 404 "ignored_slack_retry" whatever its body, even
    when the body is not JSON; and a body with a challenge gets the
    challenge back with status 200 whatever workspace it names. *)
Theorem retry_and_challenge_answers
    (allowed : option pystr) (str_other : json -> pystr) :
  (forall n b,
     slack_events allowed str_other
       {| x_slack_retry_num := Some n; body := b |}
     = Respond 404 [(str "error", JStr (str "ignored_slack_retry"))])
  /\ (forall data challenge,
        dict_get data (str "challenge") = Some challenge ->
        json_truthy challenge = true ->
        slack_events allowed str_other
          {| x_slack_retry_num := None; body := Some (JDict data) |}
        = Respond 200 [(str "challenge", challenge)]).
Proof.
  split; [reflexivity|].
  intros data challenge Hc Ht. unfold slack_events. simpl.
  now rewrite Hc, Ht.
Qed.

Lemma retry_and_challenge_answers_witness :
  slack_events (Some (str "T0ALLOWED")) (fun _ => [])
    {| x_slack_retry_num := None;
       body := Some (JDict [(str "type", JStr (str "url_verification"));
                            (str "challenge", JStr (str "3eZbrw1a"))]) |}
  = Respond 200 [(str "challenge", JStr (str "3eZbrw1a"))].
Proof.
  destruct (@retry_and_challenge_answers (Some (str "T0ALLOWED"))
              (fun _ => [])) as (_ & H).
  apply H; reflexivity.
Defined.
